(** * steg: LSB steganography over an RGBA channel buffer

    A shallow embedding of [src/index.ts] (paulmillr/steg): the packed-file
    format of [RawFile], the capacity model and the channel cursor of
    [StegImage], and the [hide] / [reveal] orchestration.

    Modelling conventions.
    - Bytes, channel values and JS numbers are [Z].  A JS string is a list of
      Unicode scalar values (code points, as [Z]).
    - [utils.utf8ToBytes] / [utils.bytesToUtf8] call the platform
      [TextEncoder] / [TextDecoder]; they are embedded from the WHATWG
      Encoding Standard (UTF-8 encoder, UTF-8 decoder with replacement, and
      the BOM sniffing that [TextDecoder.decode] performs by default).
    - [imageData.data] is a typed array: reading past its end yields
      [undefined], which every bit operation of the source turns into [0];
      a store past its end is ignored; an in-range store is converted by the
      array's element type ([Wrapping] for [Uint8Array], as in the tests,
      [Clamping] for the browser's [Uint8ClampedArray]).
    - A thrown exception is [Err]; mutations of the shared channel buffer made
      before the throw are kept, so functions that mutate it return the
      buffer next to their outcome. *)

From Stdlib Require Import ZArith List Bool Lia QArith Qround.
Import ListNotations.
Open Scope Z_scope.

(** ** Outcomes *)

Inductive err : Type :=
  | BitsOutOfRange      (* validateBits *)
  | InvalidName         (* createHeader: 'File name must be 1-255 chars' *)
  | LengthTooSmall      (* packWithPadding: 'requiredLength is lesser than result' *)
  | CorruptHeader       (* fromPacked: 'file name must contain at least 1 character' *)
  | RangeError          (* DataView / typed-array constructor out of range *)
  | FileTooLarge        (* hideBlob: 'Can't hide ... bytes' *)
  | EncryptionSizeMismatch
  | NeedMoreRandom      (* hideBlob: 'Need more than 7 random bits' *)
  | BufBitsMismatch     (* hideBlob: 'bufBits !== bitsTaken' *)
  | CursorMismatch      (* hideBlob: 'Current pixel length ...' *)
  | AuthenticationFailed.

Inductive result (A : Type) : Type :=
  | Ok (a : A)
  | Err (e : err).
Arguments Ok {A} a.
Arguments Err {A} e.

Definition bind {A B : Type} (r : result A) (k : A -> result B) : result B :=
  match r with
  | Ok a => k a
  | Err e => Err e
  end.

Notation "x <- r ;; k" := (bind r (fun x => k))
  (at level 61, r at next level, right associativity).

Definition lenZ {A : Type} (l : list A) : Z := Z.of_nat (length l).

(** ** Small helpers of [index.ts] *)

Definition validateBits (b : Z) : result unit :=
  if (1 <=? b) && (b <=? 8) then Ok tt else Err BitsOutOfRange.

(** [clearBits(n, bits) = (n >> bits) << bits] *)
Definition clearBits (n bits : Z) : Z := Z.shiftl (Z.shiftr n bits) bits.

(** [readBit(byte, pos) = (byte >> (7 - pos)) & 1] *)
Definition readBit (byte pos : Z) : Z := Z.land (Z.shiftr byte (7 - pos)) 1.

(** [isAlpha(pixel) = pixel % 4 === 3] *)
Definition isAlpha (pixel : Z) : bool := pixel mod 4 =? 3.

(** ** Typed arrays *)

(** [arr[i]] as used by the bit operations: [undefined] (out of range) acts
    as [0]. *)
Definition get (l : list Z) (i : Z) : Z :=
  if (0 <=? i) && (i <? lenZ l) then nth (Z.to_nat i) l 0 else 0.

Inductive store_mode : Type := Wrapping | Clamping.

(** Conversion of an integer stored into a typed-array element. *)
Definition to_elem (m : store_mode) (v : Z) : Z :=
  match m with
  | Wrapping => v mod 256
  | Clamping => Z.max 0 (Z.min 255 v)
  end.

Fixpoint upd (l : list Z) (n : nat) (v : Z) : list Z :=
  match l, n with
  | [], _ => []
  | _ :: t, O => v :: t
  | h :: t, S n' => h :: upd t n' v
  end.

(** [arr[i] = v]: ignored out of range. *)
Definition set (m : store_mode) (l : list Z) (i v : Z) : list Z :=
  if (0 <=? i) && (i <? lenZ l) then upd l (Z.to_nat i) (to_elem m v) else l.

(** [arr.subarray(s, e)] for [0 <= s], [0 <= e]: both ends clamped to the
    length. *)
Definition subarray (l : list Z) (s e : Z) : list Z :=
  let n := lenZ l in
  let s' := Z.min s n in
  let e' := Z.min e n in
  firstn (Z.to_nat (e' - s')) (skipn (Z.to_nat s') l).

(** [DataView.getUint8] / [getUint32] (big endian) / [setUint32]. *)
Definition getUint8 (l : list Z) (off : Z) : result Z :=
  if (0 <=? off) && (off + 1 <=? lenZ l) then Ok (nth (Z.to_nat off) l 0)
  else Err RangeError.

Definition be32_decode (b0 b1 b2 b3 : Z) : Z :=
  Z.lor (Z.shiftl b0 24) (Z.lor (Z.shiftl b1 16) (Z.lor (Z.shiftl b2 8) b3)).

Definition getUint32 (l : list Z) (off : Z) : result Z :=
  if (0 <=? off) && (off + 4 <=? lenZ l) then
    let n := Z.to_nat off in
    Ok (be32_decode (nth n l 0) (nth (n + 1) l 0) (nth (n + 2) l 0) (nth (n + 3) l 0))
  else Err RangeError.

(** The four bytes [setUint32] stores: the value is first taken modulo
    [2^32] (ToUint32). *)
Definition be32_encode (x : Z) : list Z :=
  let v := x mod 2 ^ 32 in
  [Z.land (Z.shiftr v 24) 255; Z.land (Z.shiftr v 16) 255;
   Z.land (Z.shiftr v 8) 255; Z.land v 255].

(** ** UTF-8 ([TextEncoder] / [TextDecoder], WHATWG Encoding Standard) *)

Definition is_scalar (c : Z) : bool :=
  (0 <=? c) && (c <=? 0x10FFFF) && negb ((0xD800 <=? c) && (c <=? 0xDFFF)).

(** UTF-8 encoder; a non-scalar (a lone surrogate of the JS string) is
    encoded as U+FFFD, as [TextEncoder] does. *)
Definition utf8_encode_cp (c0 : Z) : list Z :=
  let c := if is_scalar c0 then c0 else 0xFFFD in
  if c <? 0x80 then [c]
  else if c <? 0x800 then
    [Z.shiftr c 6 + 0xC0; Z.lor 0x80 (Z.land c 0x3F)]
  else if c <? 0x10000 then
    [Z.shiftr c 12 + 0xE0; Z.lor 0x80 (Z.land (Z.shiftr c 6) 0x3F);
     Z.lor 0x80 (Z.land c 0x3F)]
  else
    [Z.shiftr c 18 + 0xF0; Z.lor 0x80 (Z.land (Z.shiftr c 12) 0x3F);
     Z.lor 0x80 (Z.land (Z.shiftr c 6) 0x3F); Z.lor 0x80 (Z.land c 0x3F)].

(** [utils.utf8ToBytes(str) = new TextEncoder().encode(str)] *)
Definition utf8ToBytes (s : list Z) : list Z := flat_map utf8_encode_cp s.

(** State of the WHATWG UTF-8 decoder. *)
Record dstate : Type := DState {
  d_cp : Z; d_needed : Z; d_seen : Z; d_lower : Z; d_upper : Z }.

Definition d_init : dstate := DState 0 0 0 0x80 0xBF.

Definition replacement : Z := 0xFFFD.

(** The decoder's handler when no continuation byte is expected. *)
Definition d_lead (b : Z) : list Z * dstate :=
  if b <=? 0x7F then ([b], d_init)
  else if (0xC2 <=? b) && (b <=? 0xDF) then
    ([], DState (Z.land b 0x1F) 1 0 0x80 0xBF)
  else if (0xE0 <=? b) && (b <=? 0xEF) then
    ([], DState (Z.land b 0xF) 2 0
                (if b =? 0xE0 then 0xA0 else 0x80)
                (if b =? 0xED then 0x9F else 0xBF))
  else if (0xF0 <=? b) && (b <=? 0xF4) then
    ([], DState (Z.land b 0x7) 3 0
                (if b =? 0xF0 then 0x90 else 0x80)
                (if b =? 0xF4 then 0x8F else 0xBF))
  else ([replacement], d_init).

(** One byte of input; an unexpected byte is an error and is processed again
    ("prepended to the stream") in the initial state. *)
Definition d_step (st : dstate) (b : Z) : list Z * dstate :=
  if d_needed st =? 0 then d_lead b
  else if negb ((d_lower st <=? b) && (b <=? d_upper st)) then
    let '(o, st') := d_lead b in (replacement :: o, st')
  else
    let cp := Z.lor (Z.shiftl (d_cp st) 6) (Z.land b 0x3F) in
    let seen := d_seen st + 1 in
    if seen =? d_needed st then ([cp], d_init)
    else ([], DState cp (d_needed st) seen 0x80 0xBF).

Fixpoint d_run (st : dstate) (bs : list Z) : list Z :=
  match bs with
  | [] => if d_needed st =? 0 then [] else [replacement]
  | b :: bs' => let '(o, st') := d_step st b in o ++ d_run st' bs'
  end.

(** [TextDecoder.decode] skips a leading UTF-8 byte order mark
    ([ignoreBOM] is false by default). *)
Definition strip_bom (bs : list Z) : list Z :=
  match bs with
  | a :: b :: c :: rest =>
      if (a =? 0xEF) && (b =? 0xBB) && (c =? 0xBF) then rest else bs
  | _ => bs
  end.

(** [utils.bytesToUtf8(bytes) = new TextDecoder().decode(bytes)] *)
Definition bytesToUtf8 (bs : list Z) : list Z := d_run d_init (strip_bom bs).

(** ** RawFile *)

(** Decimal rendering of a non-negative integer (template literal). *)
Fixpoint digits_aux (fuel : nat) (n : Z) (acc : list Z) : list Z :=
  match fuel with
  | O => (48 + n mod 10) :: acc
  | S f => if n <? 10 then (48 + n) :: acc
           else digits_aux f (n / 10) ((48 + n mod 10) :: acc)
  end.

Definition decimal (n : Z) : list Z := digits_aux (Z.to_nat (Z.log2 n) + 1) n [].

(** ["file-" ++ size ++ ".file"] *)
Definition default_name (size : Z) : list Z :=
  [102; 105; 108; 101; 45] ++ decimal size ++ [46; 102; 105; 108; 101].

Record RawFile : Type := MkRawFile {
  rf_data : list Z; rf_name : list Z; rf_size : Z }.

(** [new RawFile(data, name)]: an empty name is replaced. *)
Definition newRawFile (data : list Z) (name : list Z) : RawFile :=
  let size := lenZ data in
  MkRawFile data (match name with [] => default_name size | _ => name end) size.

Definition createHeader (f : RawFile) : result (list Z) :=
  let nbytes := utf8ToBytes (rf_name f) in
  let nsize := lenZ nbytes in
  if (nsize <? 1) || (255 <? nsize) then Err InvalidName
  else Ok ([nsize] ++ nbytes ++ be32_encode (rf_size f)).

(** [pack() = header || data] *)
Definition pack (f : RawFile) : result (list Z) :=
  header <- createHeader f ;; Ok (header ++ rf_data f).

Definition packWithPadding (f : RawFile) (requiredLength : Z) : result (list Z) :=
  packed <- pack f ;;
  let difference := requiredLength - lenZ packed in
  if difference <? 0 then Err LengthTooSmall
  else Ok (packed ++ repeat 0 (Z.to_nat difference)).

Definition fromPacked (packed : list Z) : result RawFile :=
  nsize <- getUint8 packed 0 ;;
  if nsize <? 1 then Err CorruptHeader else
  let name := bytesToUtf8 (subarray packed 1 (1 + nsize)) in
  let offset := 1 + nsize in
  fsize <- getUint32 packed offset ;;
  let offset := offset + 4 in
  Ok (newRawFile (subarray packed offset (offset + fsize)) name).

(** ** StegImage: capacity *)

Record Capacity : Type := MkCapacity { cap_bits : Q; cap_bytes : Z }.

Definition ENCRYPTED_METADATA_SIZE : Z := 28.

(** [calcCapacity] on a buffer of [channelsLen] channels (exact arithmetic:
    every intermediate JS double of the source is exact). *)
Definition calcCapacity (channelsLen bitsTaken : Z) : result Capacity :=
  _ <- validateBits bitsTaken ;;
  let rgba := 4 in
  let channelsNoFirst := channelsLen - rgba in
  let pixels := (inject_Z channelsNoFirst / inject_Z rgba)%Q in
  let rgb := 3 in
  let bits := (pixels * inject_Z rgb * inject_Z bitsTaken)%Q in
  let bytes := Qfloor (bits / inject_Z 8)%Q in
  Ok (MkCapacity bits bytes).

(** ** StegImage: the hiding cursor *)

(** State of [hideBlob]: the shared channel buffer, [channelId], the bit
    accumulator [buf]/[bufBits], and how many random bytes were drawn. *)
Record HState : Type := MkHState {
  hs_ch : list Z; hs_id : Z; hs_buf : Z; hs_bufBits : Z; hs_rnd : nat }.

Section Hide.

Variable m : store_mode.
(** the random source of [getRandomByte]: the [n]-th byte drawn *)
Variable rng : nat -> Z.

Definition set_acc (buf bufBits : Z) (s : HState) : HState :=
  MkHState (hs_ch s) (hs_id s) buf bufBits (hs_rnd s).

Definition getRandomByte (s : HState) : Z * HState :=
  (rng (hs_rnd s), MkHState (hs_ch s) (hs_id s) (hs_buf s) (hs_bufBits s) (S (hs_rnd s))).

(** [writeChannel(data, bits)] *)
Definition writeChannel (bits data : Z) (s : HState) : HState :=
  let channelId := hs_id s in
  let curr := get (hs_ch s) channelId in
  let ch1 := set m (hs_ch s) channelId (Z.lor (clearBits curr bits) data) in
  let id1 := channelId + 1 in
  if isAlpha id1
  then MkHState (set m ch1 id1 256) (id1 + 1) (hs_buf s) (hs_bufBits s) (hs_rnd s)
  else MkHState ch1 id1 (hs_buf s) (hs_bufBits s) (hs_rnd s).

(** [while (channelId < 3) writeChannel(readBit(bitsTaken - 1, 8 - 3 + channelId), 1)]
    (each iteration advances [channelId], from 0: three iterations). *)
Fixpoint header_loop (fuel : nat) (bitsTaken : Z) (s : HState) : HState :=
  match fuel with
  | O => s
  | S f =>
      if hs_id s <? 3
      then header_loop f bitsTaken
             (writeChannel 1 (readBit (bitsTaken - 1) (8 - 3 + hs_id s)) s)
      else s
  end.

(** One iteration of the inner [for (bit ...)] loop. *)
Definition push_bit (bitsTaken : Z) (s : HState) (x : Z) : HState :=
  let buf := Z.lor (Z.shiftl (hs_buf s) 1) x in
  let bufBits := hs_bufBits s + 1 in
  if bufBits =? bitsTaken
  then set_acc 0 0 (writeChannel bitsTaken buf (set_acc buf bufBits s))
  else set_acc buf bufBits s.

Definition bit_positions : list Z := [0; 1; 2; 3; 4; 5; 6; 7].

Definition hide_byte (bitsTaken : Z) (s : HState) (hiddenDataByte : Z) : HState :=
  fold_left (fun s bit => push_bit bitsTaken s (readBit hiddenDataByte bit))
            bit_positions s.

Definition payload (bitsTaken : Z) (hData : list Z) (s : HState) : HState :=
  fold_left (hide_byte bitsTaken) hData s.

(** [for (let i = 0; i < leftoverBits; i++) ...] *)
Fixpoint fill_random (n : nat) (i randomByte : Z) (s : HState) : result unit * HState :=
  match n with
  | O => (Ok tt, s)
  | S n' =>
      if 7 <? i then (Err NeedMoreRandom, s)
      else fill_random n' (i + 1) randomByte
             (set_acc (Z.lor (Z.shiftl (hs_buf s) 1) (readBit randomByte i))
                      (hs_bufBits s + 1) s)
  end.

(** The leftover flush [if (bufBits) { ... }]. *)
Definition leftover (bitsTaken : Z) (s : HState) : result unit * HState :=
  if hs_bufBits s =? 0 then (Ok tt, s) else
  let '(randomByte, s1) := getRandomByte s in
  let leftoverBits := bitsTaken - hs_bufBits s1 in
  match fill_random (Z.to_nat leftoverBits) 0 randomByte s1 with
  | (Err e, s2) => (Err e, s2)
  | (Ok _, s2) =>
      if negb (hs_bufBits s2 =? bitsTaken) then (Err BufBitsMismatch, s2)
      else (Ok tt, writeChannel bitsTaken (hs_buf s2) s2)
  end.

(** [while (channelId < channelsLen) writeChannel(randomByte & bitsTakenMask)]
    (each iteration advances [channelId]; [channelsLen] iterations suffice). *)
Fixpoint trail (fuel : nat) (channelsLen bitsTaken : Z) (s : HState) : HState :=
  match fuel with
  | O => s
  | S f =>
      if hs_id s <? channelsLen then
        let '(randomByte, s1) := getRandomByte s in
        trail f channelsLen bitsTaken
              (writeChannel bitsTaken (Z.land randomByte (2 ^ bitsTaken - 1)) s1)
      else s
  end.

(** The write sequence of [hideBlob] after its capacity check: header,
    payload, leftover flush, trailing random fill. *)
Definition hide_writes (bitsTaken : Z) (hData channels : list Z) : result unit * HState :=
  let s0 := MkHState channels 0 0 0 O in
  let s1 := header_loop 3 bitsTaken s0 in
  let s2 := payload bitsTaken hData s1 in
  match leftover bitsTaken s2 with
  | (Err e, s3) => (Err e, s3)
  | (Ok _, s3) => (Ok tt, trail (length channels) (lenZ channels) bitsTaken s3)
  end.

(** [hideBlob(hData, bitsTaken)]: the outcome and the channel buffer it
    leaves.  Rendering the buffer and re-reading it through the canvas is the
    external collaborator, taken to return the buffer unchanged. *)
Definition hideBlob (hData : list Z) (bitsTaken : Z) (channels : list Z)
  : result unit * list Z :=
  let channelsLen := lenZ channels in
  match validateBits bitsTaken with
  | Err e => (Err e, channels)
  | Ok _ =>
  match calcCapacity channelsLen bitsTaken with
  | Err e => (Err e, channels)
  | Ok cap =>
  if lenZ hData >? cap_bytes cap then (Err FileTooLarge, channels) else
  match hide_writes bitsTaken hData channels with
  | (Err e, s) => (Err e, hs_ch s)
  | (Ok _, s) =>
      if negb (hs_id s =? channelsLen) then (Err CursorMismatch, hs_ch s)
      else (Ok tt, hs_ch s)
  end end end.

End Hide.

(** ** StegImage: revealing *)

Definition revealBitsTaken (channels : list Z) : result Z :=
  let bit0 := Z.shiftl (readBit (get channels 0) 7) 2 in
  let bit1 := Z.shiftl (readBit (get channels 1) 7) 1 in
  let bit2 := readBit (get channels 2) 7 in
  let bitsTaken := 1 + Z.lor bit0 (Z.lor bit1 bit2) in
  _ <- validateBits bitsTaken ;;
  Ok bitsTaken.

(** The [for (channelId = 4; ...)] loop of [revealBlob] over the state
    [channelId], [buf], [bufBits], [out], [outPos] ([out] is a
    [Uint8Array]). *)
Fixpoint read_loop (fuel : nat) (channels : list Z) (bitsTaken mask : Z)
    (channelId buf bufBits : Z) (out : list Z) (outPos : Z) : list Z :=
  match fuel with
  | O => out
  | S f =>
      if channelId <? lenZ channels then
        let channelId := if isAlpha channelId then channelId + 1 else channelId in
        let buf := Z.lor (Z.shiftl buf bitsTaken) (Z.land (get channels channelId) mask) in
        let bufBits := bufBits + bitsTaken in
        if 8 <=? bufBits then
          let leftBits := bufBits - 8 in
          read_loop f channels bitsTaken mask (channelId + 1)
                    (Z.land buf (2 ^ leftBits - 1)) leftBits
                    (set Wrapping out outPos (Z.shiftr buf leftBits)) (outPos + 1)
        else read_loop f channels bitsTaken mask (channelId + 1) buf bufBits out outPos
      else out
  end.

Definition revealBlob (channels : list Z) : result (list Z) :=
  bitsTaken <- revealBitsTaken channels ;;
  cap <- calcCapacity (lenZ channels) bitsTaken ;;
  let bytes := cap_bytes cap in
  let mask := 2 ^ bitsTaken - 1 in
  if bytes <? 0 then Err RangeError else
  Ok (read_loop (length channels) channels bitsTaken mask 4 0 0
                (repeat 0 (Z.to_nat bytes)) 0).

(** ** hide / reveal *)

(** The AEAD provider: [encrypt key nonce plaintext] and [decrypt key blob]. *)
Definition Encrypt : Type := list Z -> list Z -> list Z -> list Z.
Definition Decrypt : Type := list Z -> list Z -> result (list Z).

(** Outcome of [hide]: its result, the channel buffer it leaves, and the
    plaintexts handed to [encrypt]. *)
Record HideOut : Type := MkHideOut {
  ho_result : result unit; ho_channels : list Z; ho_encrypted : list (list Z) }.

Definition hide (encrypt : Encrypt) (m : store_mode) (rng : nat -> Z)
    (nonce : list Z) (rawFile : RawFile) (key : list Z) (bitsTaken : Z)
    (channels : list Z) : HideOut :=
  match calcCapacity (lenZ channels) bitsTaken with
  | Err e => MkHideOut (Err e) channels []
  | Ok cap =>
  let capacity := cap_bytes cap in
  match packWithPadding rawFile (capacity - ENCRYPTED_METADATA_SIZE) with
  | Err e => MkHideOut (Err e) channels []
  | Ok packed =>
  let ciphertext := encrypt key nonce packed in
  if negb (lenZ ciphertext =? capacity)
  then MkHideOut (Err EncryptionSizeMismatch) channels [packed]
  else let '(r, ch) := hideBlob m rng ciphertext bitsTaken channels in
       MkHideOut r ch [packed]
  end end.

Definition reveal (decrypt : Decrypt) (key : list Z) (channels : list Z) : result RawFile :=
  ciphertext <- revealBlob channels ;;
  packed <- decrypt key ciphertext ;;
  fromPacked packed.

(** ** A concrete AEAD provider meeting the contract (for evaluation) *)

(** [nonce(12) || plaintext || tag(16)]; decryption checks the tag. *)
Definition toy_encrypt : Encrypt :=
  fun key nonce p => firstn 12 (nonce ++ repeat 0 12) ++ p ++ repeat (hd 0 key) 16.

Definition toy_decrypt : Decrypt :=
  fun key blob =>
    let n := length blob in
    if (n <? 28)%nat then Err AuthenticationFailed
    else if list_eq_dec Z.eq_dec (skipn (n - 16) blob) (repeat (hd 0 key) 16)
    then Ok (firstn (n - 28) (skipn 12 blob))
    else Err AuthenticationFailed.

(** ** Invariants used by the proofs *)

Definition ascii (c : Z) : Prop := 0 <= c < 0x80.

(** Channel [i] is alpha iff [i mod 4 = 3]; the cursor is never on one; every
    alpha channel behind the cursor holds the stored sentinel [256]. *)
Definition alpha_inv (m : store_mode) (L : Z) (s : HState) : Prop :=
  lenZ (hs_ch s) = L /\ 0 <= hs_id s /\ hs_id s mod 4 <> 3 /\
  (forall i, 0 <= i < hs_id s -> i < L -> isAlpha i = true ->
             get (hs_ch s) i = to_elem m 256).

(** Position of the cursor after [w] payload writes: data channels are the
    non-alpha channels from index 4 on. *)
Definition pos (w : Z) : Z := 4 + w + w / 3.

(** The accumulator after [T] payload bits: [w] channels written and
    [bufBits] bits pending. *)
Definition acc_inv (b T : Z) (s : HState) : Prop :=
  exists w, 0 <= w /\ hs_id s = pos w /\ 0 <= hs_bufBits s < b /\ w * b + hs_bufBits s = T.

(** ** Invariants of the hiding/revealing round trip *)

(** Bit [t] of the payload as [revealBlob] reads it from the buffer: the
    [t / b]-th data channel, most significant of its [b] low bits first. *)
Definition rbit (ch : list Z) (b t : Z) : bool :=
  Z.testbit (get ch (pos (t / b))) (b - 1 - t mod b).

(** Bit [t] of the payload, most significant bit of each byte first. *)
Definition dbit (hData : list Z) (t : Z) : bool :=
  Z.testbit (get hData (t / 8)) (7 - t mod 8).

(** Every element reads as a byte. *)
Definition all_bytes (l : list Z) : Prop := forall i, 0 <= get l i < 256.

(** Channels 0..2 carry the bits of [bitsTaken - 1] in their bit 0. *)
Definition header_ok (b : Z) (ch : list Z) : Prop :=
  forall i, 0 <= i < 3 -> Z.testbit (get ch i) 0 = Z.testbit (b - 1) (2 - i).

Definition chan_ok (L b : Z) (ch : list Z) : Prop :=
  lenZ ch = L /\ all_bytes ch /\ header_ok b ch.

(** After [T] payload bits: [w] data channels written with the first [w*b]
    bits, the next [bufBits] bits pending in [buf]. *)
Definition write_inv (L b : Z) (hData : list Z) (T : Z) (s : HState) : Prop :=
  exists w, 0 <= w /\ hs_id s = pos w /\ 0 <= hs_bufBits s < b
    /\ w * b + hs_bufBits s = T
    /\ 0 <= hs_buf s < 2 ^ hs_bufBits s
    /\ (forall i, 0 <= i < hs_bufBits s -> Z.testbit (hs_buf s) i = dbit hData (T - 1 - i))
    /\ (forall t, 0 <= t < w * b -> rbit (hs_ch s) b t = dbit hData t)
    /\ chan_ok L b (hs_ch s).

(** After the leftover flush: all payload bits are in the channels before
    the cursor. *)
Definition frozen_inv (L b W : Z) (hData : list Z) (s : HState) : Prop :=
  0 <= W /\ 8 * lenZ hData <= W * b /\ pos W <= hs_id s /\ chan_ok L b (hs_ch s)
  /\ (forall t, 0 <= t < 8 * lenZ hData -> rbit (hs_ch s) b t = dbit hData t).

(** [v] is the [k]-th byte read from the buffer. *)
Definition byte_ok (ch : list Z) (b v k : Z) : Prop :=
  0 <= v < 256 /\ forall i, 0 <= i < 8 -> Z.testbit v i = rbit ch b (8 * k + 7 - i).

(** State of the [revealBlob] loop after [w] data channels. *)
Definition read_inv (ch : list Z) (b K w c buf bufBits : Z) (out : list Z) (outPos : Z)
  : Prop :=
  0 <= w /\ (if isAlpha c then c + 1 else c) = pos w
  /\ w * b = 8 * outPos + bufBits /\ 0 <= bufBits < 8
  /\ 0 <= buf < 2 ^ bufBits
  /\ (forall i, 0 <= i < bufBits -> Z.testbit buf i = rbit ch b (w * b - 1 - i))
  /\ lenZ out = K
  /\ (forall k, 0 <= k < outPos -> k < K -> byte_ok ch b (get out k) k).

(** [ch] has the length of [ch0], holds bytes, and agrees with [ch0] above
    the [b] low bits of every non-alpha channel. *)
Definition hi_same (b : Z) (ch0 ch : list Z) : Prop :=
  lenZ ch = lenZ ch0 /\ all_bytes ch
  /\ forall i, isAlpha i = false -> Z.shiftr (get ch i) b = Z.shiftr (get ch0 i) b.

Definition acc_ok (b : Z) (s : HState) : Prop :=
  0 <= hs_bufBits s < b /\ 0 <= hs_buf s < 2 ^ hs_bufBits s.

(** The capacity [calcCapacity] computes (used with concrete inputs). *)
Definition ex_cap (L b : Z) : Capacity :=
  match calcCapacity L b with Ok c => c | Err _ => MkCapacity 0 0 end.

(** * Properties *)

(** ** Examples *)

Example ex_pack_a :
  pack (newRawFile [7] [97]) = Ok [1; 97; 0; 0; 0; 1; 7].
Proof. reflexivity. Qed.

Example ex_unpack_a :
  bind (pack (newRawFile [7] [97])) fromPacked = Ok (newRawFile [7] [97]).
Proof. reflexivity. Qed.

Example ex_default_name :
  rf_name (newRawFile (repeat 0 120) []) = utf8ToBytes (default_name 120)
  /\ decimal 120 = [49; 50; 48].
Proof. split; reflexivity. Qed.

Example ex_utf8_euro :
  utf8ToBytes [0x20AC] = [0xE2; 0x82; 0xAC] /\ bytesToUtf8 [0xE2; 0x82; 0xAC] = [0x20AC].
Proof. split; reflexivity. Qed.

(** The test of [test/index.js]: 4 pixels, one byte at one bit per channel. *)
Example ex_hideBlob_basic :
  let '(r, ch) := hideBlob Wrapping (fun _ => 0) [170] 1 (repeat 0 16) in
  r = Ok tt /\ firstn 14 ch = [0; 0; 0; 0; 1; 0; 1; 0; 0; 1; 0; 0; 1; 0]
  /\ revealBlob ch = Ok [170].
Proof. vm_compute. auto. Qed.

Example ex_capacity_16 :
  bind (calcCapacity 16 1) (fun c => Ok (cap_bytes c)) = Ok 1 /\
  bind (calcCapacity 16 8) (fun c => Ok (cap_bytes c)) = Ok 9.
Proof. split; reflexivity. Qed.

Example ex_hide_reveal :
  let f := newRawFile [170] [97; 46; 116; 120; 116] in
  let o := hide toy_encrypt Wrapping (fun n => Z.of_nat n) [] f (repeat 1 32) 1
                (repeat 0 (256 * 4)) in
  ho_result o = Ok tt /\ reveal toy_decrypt (repeat 1 32) (ho_channels o) = Ok f.
Proof. vm_compute. auto. Qed.


(** ** Arithmetic and list helpers *)

(** Decide a boolean equation over [Z] comparisons by case analysis. *)
Ltac bool_lia :=
  unfold lenZ in *; cbn [length] in *;
  repeat match goal with
  | |- context [?a <=? ?b] => destruct (Z.leb_spec a b)
  | |- context [?a <? ?b] => destruct (Z.ltb_spec a b)
  | |- context [?a =? ?b] => destruct (Z.eqb_spec a b)
  end; cbn; first [reflexivity | exfalso; lia].

Lemma inject_Z_div4 (k : Z) : (inject_Z (4 * k) / inject_Z 4 == inject_Z k)%Q.
Proof.
  rewrite inject_Z_mult. field.
Qed.

Lemma readBit_01 (x p : Z) : readBit x p = 0 \/ readBit x p = 1.
Proof.
  unfold readBit. rewrite (Z.land_ones _ 1) by lia.
  change (2 ^ 1) with 2.
  pose proof (Z.mod_pos_bound (Z.shiftr x (7 - p)) 2) as H. lia.
Qed.

Lemma get_nth_error (l l' : list Z) (i : nat) :
  nth_error l i = nth_error l' i -> get l (Z.of_nat i) = get l' (Z.of_nat i).
Proof.
  intros H. unfold get, lenZ. rewrite Nat2Z.id.
  destruct (Nat.lt_ge_cases i (length l)) as [Hl | Hl];
  destruct (Nat.lt_ge_cases i (length l')) as [Hl' | Hl'].
  - rewrite (nth_error_nth' l 0 Hl) in H. rewrite (nth_error_nth' l' 0 Hl') in H.
    injection H as H. rewrite H.
    replace (Z.of_nat i <? Z.of_nat (length l)) with true by (symmetry; apply Z.ltb_lt; lia).
    replace (Z.of_nat i <? Z.of_nat (length l')) with true by (symmetry; apply Z.ltb_lt; lia).
    reflexivity.
  - rewrite (nth_error_nth' l 0 Hl) in H. rewrite (proj2 (nth_error_None l' i) Hl') in H.
    discriminate.
  - rewrite (nth_error_nth' l' 0 Hl') in H. rewrite (proj2 (nth_error_None l i) Hl) in H.
    discriminate.
  - replace (Z.of_nat i <? Z.of_nat (length l)) with false by (symmetry; apply Z.ltb_ge; lia).
    replace (Z.of_nat i <? Z.of_nat (length l')) with false by (symmetry; apply Z.ltb_ge; lia).
    rewrite !andb_false_r. reflexivity.
Qed.

Lemma upd_length (l : list Z) (n : nat) (v : Z) : length (upd l n v) = length l.
Proof.
  revert n; induction l as [|h t IH]; intros [|n]; simpl; auto.
Qed.

Lemma nth_error_upd_ne (l : list Z) (n k : nat) (v : Z) :
  n <> k -> nth_error (upd l n v) k = nth_error l k.
Proof.
  revert n k; induction l as [|h t IH]; intros [|n] [|k] Hne; simpl; auto.
  - contradiction.
Qed.

Lemma nth_error_upd_eq (l : list Z) (n : nat) (v : Z) :
  (n < length l)%nat -> nth_error (upd l n v) n = Some v.
Proof.
  revert n; induction l as [|h t IH]; intros [|n] Hn; simpl in *; try lia; auto.
  apply IH; lia.
Qed.

Lemma set_length (m : store_mode) (l : list Z) (i v : Z) :
  length (set m l i v) = length l.
Proof.
  unfold set. destruct (_ && _); auto using upd_length.
Qed.

Lemma nth_error_set_ne (m : store_mode) (l : list Z) (i v : Z) (k : nat) :
  i <> Z.of_nat k -> nth_error (set m l i v) k = nth_error l k.
Proof.
  intros Hne. unfold set. destruct ((0 <=? i) && (i <? lenZ l)) eqn:E; auto.
  apply andb_prop in E as [E _]. apply Z.leb_le in E.
  apply nth_error_upd_ne. lia.
Qed.

(** ** Claim C2: the capacity model *)

Lemma capacity_bits_mul4 (L b : Z) :
  L mod 4 = 0 ->
  (inject_Z (L - 4) / inject_Z 4 * inject_Z 3 * inject_Z b
   == inject_Z ((L - 4) / 4 * 3 * b))%Q.
Proof.
  intros HL.
  assert (Hk : L - 4 = 4 * ((L - 4) / 4)).
  { assert (Hm : (L - 4) mod 4 = 0) by (rewrite Zminus_mod, HL; reflexivity).
    pose proof (Z.div_mod (L - 4) 4 ltac:(lia)) as D. lia. }
  set (k := (L - 4) / 4) in *.
  rewrite Hk, inject_Z_div4, !inject_Z_mult. reflexivity.
Qed.

(** C2. For a buffer of [L] channels, [L] a multiple of 4, and [bitsTaken]
    [b] in [1,8], [calcCapacity] succeeds with [bits = ((L-4)/4)*3*b] and
    [bytes = floor(bits/8)]; for [L = 16] it gives 9 bits / 1 byte at
    [b = 1] and 72 bits / 9 bytes at [b = 8]. *)
Theorem calcCapacity_formula (L b : Z) (HL : L mod 4 = 0) (Hb : 1 <= b <= 8) :
  (exists cap, calcCapacity L b = Ok cap
     /\ (cap_bits cap == inject_Z ((L - 4) / 4 * 3 * b))%Q
     /\ cap_bytes cap = ((L - 4) / 4 * 3 * b) / 8)
  /\ (exists c1 c8, calcCapacity 16 1 = Ok c1 /\ calcCapacity 16 8 = Ok c8
       /\ (cap_bits c1 == 9)%Q /\ cap_bytes c1 = 1
       /\ (cap_bits c8 == 72)%Q /\ cap_bytes c8 = 9).
Proof.
  split.
  - unfold calcCapacity, validateBits.
    replace ((1 <=? b) && (b <=? 8)) with true
      by (symmetry; apply andb_true_intro; split; apply Z.leb_le; lia).
    cbn [bind].
    assert (Hbits := capacity_bits_mul4 L b HL).
    eexists; split; [reflexivity|]; cbn [cap_bits cap_bytes]; split.
    + exact Hbits.
    + rewrite Zdiv_Qdiv. apply Qfloor_comp. rewrite Hbits. reflexivity.
  - do 2 eexists. split; [reflexivity|]. split; [reflexivity|].
    vm_compute. repeat split; reflexivity.
Qed.

(** ** Claims C8 and C10: the plaintext header *)

(** C8. [revealBitsTaken] reads only channels 0, 1 and 2: two buffers that
    agree there give the same result, and storing into any channel of index
    [>= 3] does not change it. *)
Theorem revealBitsTaken_header_only (ch ch' : list Z)
  (Hagree : forall i : nat, (i < 3)%nat -> nth_error ch i = nth_error ch' i) :
  revealBitsTaken ch = revealBitsTaken ch'
  /\ (forall (m : store_mode) (i v : Z), 3 <= i ->
        revealBitsTaken (set m ch i v) = revealBitsTaken ch).
Proof.
  split.
  - unfold revealBitsTaken.
    pose proof (get_nth_error ch ch' 0 (Hagree 0%nat ltac:(lia))) as H0.
    pose proof (get_nth_error ch ch' 1 (Hagree 1%nat ltac:(lia))) as H1.
    pose proof (get_nth_error ch ch' 2 (Hagree 2%nat ltac:(lia))) as H2.
    simpl in H0, H1, H2. rewrite H0, H1, H2. reflexivity.
  - intros m i v Hi. unfold revealBitsTaken.
    pose proof (get_nth_error (set m ch i v) ch 0 (nth_error_set_ne m ch i v 0 ltac:(lia))) as H0.
    pose proof (get_nth_error (set m ch i v) ch 1 (nth_error_set_ne m ch i v 1 ltac:(lia))) as H1.
    pose proof (get_nth_error (set m ch i v) ch 2 (nth_error_set_ne m ch i v 2 ltac:(lia))) as H2.
    simpl in H0, H1, H2. rewrite H0, H1, H2. reflexivity.
Qed.

Lemma revealBitsTaken_header_only_witness :
  (forall i : nat, (i < 3)%nat -> nth_error [1; 0; 1; 0; 9] i = nth_error [1; 0; 1; 7; 3; 5] i)
  /\ revealBitsTaken [1; 0; 1; 0; 9] = revealBitsTaken [1; 0; 1; 7; 3; 5]
  /\ (forall (m : store_mode) (i v : Z), 3 <= i ->
        revealBitsTaken (set m [1; 0; 1; 0; 9] i v) = revealBitsTaken [1; 0; 1; 0; 9]).
Proof.
  assert (H : forall i : nat, (i < 3)%nat ->
              nth_error [1; 0; 1; 0; 9] i = nth_error [1; 0; 1; 7; 3; 5] i).
  { intros [|[|[|i]]] Hi; simpl; try reflexivity; lia. }
  split; [exact H|].
  exact (revealBitsTaken_header_only [1; 0; 1; 0; 9] [1; 0; 1; 7; 3; 5] H).
Defined.

(** C10. For every channel buffer, [revealBitsTaken] succeeds with
    [1 + (4*lsb(ch0) + 2*lsb(ch1) + lsb(ch2))], a value in [1,8]: its
    [validateBits] check never fails. *)
Theorem revealBitsTaken_total (ch : list Z) :
  exists b, revealBitsTaken ch = Ok b /\ 1 <= b <= 8
    /\ b = 1 + (4 * readBit (get ch 0) 7 + 2 * readBit (get ch 1) 7 + readBit (get ch 2) 7).
Proof.
  unfold revealBitsTaken.
  destruct (readBit_01 (get ch 0) 7) as [-> | ->];
  destruct (readBit_01 (get ch 1) 7) as [-> | ->];
  destruct (readBit_01 (get ch 2) 7) as [-> | ->];
  eexists; (split; [reflexivity | simpl; lia]).
Qed.

Lemma calcCapacity_formula_witness :
  16 mod 4 = 0 /\ 1 <= 8 <= 8 /\
  (exists cap, calcCapacity 16 8 = Ok cap
     /\ (cap_bits cap == inject_Z ((16 - 4) / 4 * 3 * 8))%Q
     /\ cap_bytes cap = ((16 - 4) / 4 * 3 * 8) / 8).
Proof.
  split; [reflexivity|]. split; [lia|].
  exact (proj1 (calcCapacity_formula 16 8 eq_refl ltac:(lia))).
Defined.

(** ** Claim C3: unpacking *)

Lemma subarray_in (l : list Z) (s k : Z) :
  0 <= s <= lenZ l -> 0 <= k ->
  subarray l s (s + k) = firstn (Z.to_nat k) (skipn (Z.to_nat s) l).
Proof.
  intros Hs Hk. unfold subarray.
  rewrite (Z.min_l s) by lia.
  destruct (Z.le_gt_cases (s + k) (lenZ l)) as [H | H].
  - rewrite Z.min_l by lia. f_equal. lia.
  - rewrite Z.min_r by lia.
    unfold lenZ in *.
    rewrite !firstn_all2; auto; rewrite length_skipn; lia.
Qed.

Lemma be32_decode_nonneg (a b c d : Z) :
  0 <= a -> 0 <= b -> 0 <= c -> 0 <= d -> 0 <= be32_decode a b c d.
Proof.
  intros. unfold be32_decode.
  repeat (apply Z.lor_nonneg; split); try apply Z.shiftl_nonneg; auto.
Qed.

Lemma Forall_nth_Z (P : Z -> Prop) (l : list Z) (n : nat) :
  Forall P l -> P 0 -> P (nth n l 0).
Proof.
  intros HF H0. destruct (Nat.lt_ge_cases n (length l)) as [H | H].
  - rewrite Forall_forall in HF. apply HF, nth_In, H.
  - rewrite nth_overflow by exact H. exact H0.
Qed.

(** C3 (as the code behaves).  On a byte buffer [p]: an empty buffer, or a
    buffer shorter than [name_len + 5], fails with a DataView [RangeError];
    [name_len = 0] fails with [CorruptHeader]; in every other case unpacking
    succeeds, with the name decoded from the [name_len] bytes after the first
    and the content made of the bytes after the header, cut at
    [content_len]: when [name_len + 5 + content_len] exceeds the buffer the
    content is silently shorter than [content_len]. *)
Theorem fromPacked_outcomes (p : list Z) (Hbytes : Forall (fun x => 0 <= x < 256) p) :
  (p = [] -> fromPacked p = Err RangeError)
  /\ (forall n rest, p = n :: rest -> n = 0 -> fromPacked p = Err CorruptHeader)
  /\ (forall n rest, p = n :: rest -> 1 <= n -> lenZ p < n + 5 -> fromPacked p = Err RangeError)
  /\ (forall n rest, p = n :: rest -> 1 <= n -> n + 5 <= lenZ p ->
        let k := Z.to_nat n in
        let fsize := be32_decode (nth (S k) p 0) (nth (S k + 1) p 0)
                                 (nth (S k + 2) p 0) (nth (S k + 3) p 0) in
        let content := firstn (Z.to_nat fsize) (skipn (Z.to_nat (n + 5)) p) in
        fromPacked p = Ok (newRawFile content (bytesToUtf8 (firstn k rest)))
        /\ lenZ content = Z.min fsize (lenZ p - (n + 5))).
Proof.
  split; [intros ->; reflexivity|].
  split.
  { intros n rest -> ->. unfold fromPacked, getUint8.
    replace ((0 <=? 0) && (0 + 1 <=? lenZ (0 :: rest))) with true by bool_lia.
    reflexivity. }
  split.
  - intros n rest -> Hn Hlen. unfold fromPacked, getUint8.
    replace ((0 <=? 0) && (0 + 1 <=? lenZ (n :: rest))) with true by bool_lia.
    cbn [bind nth Z.to_nat].
    replace (n <? 1) with false by (symmetry; apply Z.ltb_ge; lia).
    unfold getUint32.
    replace ((0 <=? 1 + n) && (1 + n + 4 <=? lenZ (n :: rest))) with false
      by bool_lia.
    reflexivity.
  - intros n rest -> Hn Hlen k fsize content.
    assert (Hlen' : lenZ (n :: rest) = 1 + lenZ rest) by (unfold lenZ; cbn [length]; lia).
    unfold fromPacked, getUint8.
    replace ((0 <=? 0) && (0 + 1 <=? lenZ (n :: rest))) with true by bool_lia.
    cbn [bind nth Z.to_nat].
    replace (n <? 1) with false by (symmetry; apply Z.ltb_ge; lia).
    unfold getUint32.
    replace ((0 <=? 1 + n) && (1 + n + 4 <=? lenZ (n :: rest))) with true
      by bool_lia.
    cbn [bind].
    assert (Hk : Z.to_nat (1 + n) = S k) by (unfold k; lia).
    rewrite Hk.
    assert (Hfs : 0 <= fsize).
    { apply be32_decode_nonneg; apply (Forall_nth_Z (fun x => 0 <= x < 256) _ _ Hbytes); lia. }
    rewrite (subarray_in (n :: rest) 1 n) by lia.
    replace (1 + n + 4 + fsize) with ((1 + n + 4) + fsize) by lia.
    rewrite subarray_in by lia.
    replace (1 + n + 4) with (n + 5) by lia.
    split; [reflexivity|].
    unfold content, lenZ. rewrite length_firstn, length_skipn.
    unfold lenZ in Hlen, Hlen'. lia.
Qed.

Lemma fromPacked_outcomes_witness :
  Forall (fun x => 0 <= x < 256) [1; 97; 0; 0; 0; 5] /\
  fromPacked [1; 97; 0; 0; 0; 5]
    = Ok (newRawFile (firstn 5 (skipn 6 [1; 97; 0; 0; 0; 5])) (bytesToUtf8 [97])).
Proof.
  assert (HF : Forall (fun x => 0 <= x < 256) [1; 97; 0; 0; 0; 5])
    by (repeat constructor; lia).
  split; [exact HF|].
  exact (proj1 (proj2 (proj2 (proj2 (fromPacked_outcomes _ HF))) 1 [97; 0; 0; 0; 5]
                  eq_refl ltac:(lia) ltac:(vm_compute; discriminate))).
Defined.

(** C3 as stated fails: [name_len + 5 + content_len = 11] exceeds the
    6-byte buffer, yet unpacking succeeds with an empty content. *)
Lemma fromPacked_truncated_content_cex :
  1 + 5 + 5 > lenZ [1; 97; 0; 0; 0; 5]
  /\ fromPacked [1; 97; 0; 0; 0; 5] = Ok (newRawFile [] [97]).
Proof. split; reflexivity. Qed.

(** ** Claim C5: packing and the file name *)

Lemma utf8_encode_cp_length (c : Z) :
  (1 <= length (utf8_encode_cp c) <= 4)%nat.
Proof.
  unfold utf8_encode_cp.
  destruct (_ <? 0x80); [simpl; lia|].
  destruct (_ <? 0x800); [simpl; lia|].
  destruct (_ <? 0x10000); simpl; lia.
Qed.

Lemma utf8ToBytes_length_ge (s : list Z) : (length s <= length (utf8ToBytes s))%nat.
Proof.
  induction s as [|c s IH]; simpl; [lia|].
  rewrite length_app. pose proof (utf8_encode_cp_length c). lia.
Qed.

Lemma utf8ToBytes_ascii (s : list Z) : Forall ascii s -> utf8ToBytes s = s.
Proof.
  induction 1 as [|c s Hc _ IH]; [reflexivity|].
  unfold ascii in Hc. simpl. rewrite IH. unfold utf8_encode_cp.
  replace (is_scalar c) with true by (unfold is_scalar; bool_lia).
  replace (c <? 0x80) with true by bool_lia. reflexivity.
Qed.

Lemma digits_aux_spec (fuel : nat) (n : Z) (acc : list Z) :
  0 <= n -> Forall ascii acc ->
  Forall ascii (digits_aux fuel n acc)
  /\ (length (digits_aux fuel n acc) <= S fuel + length acc)%nat.
Proof.
  revert n acc; induction fuel as [|f IH]; intros n acc Hn Hacc; cbn [digits_aux].
  - split; [|cbn [length]; lia]. constructor; auto.
    pose proof (Z.mod_pos_bound n 10 ltac:(lia)). unfold ascii. lia.
  - destruct (n <? 10) eqn:E.
    + apply Z.ltb_lt in E. split; [|cbn [length]; lia]. constructor; auto. unfold ascii. lia.
    + destruct (IH (n / 10) ((48 + n mod 10) :: acc)) as [H1 H2].
      * apply Z.div_pos; lia.
      * constructor; auto. pose proof (Z.mod_pos_bound n 10 ltac:(lia)). unfold ascii. lia.
      * split; [exact H1|]. cbn [length] in H2. lia.
Qed.

Lemma default_name_bytes (size : Z) :
  0 <= size < 2 ^ 32 ->
  utf8ToBytes (default_name size) = default_name size
  /\ (1 <= length (default_name size) <= 255)%nat.
Proof.
  intros Hs. unfold default_name, decimal.
  destruct (digits_aux_spec (Z.to_nat (Z.log2 size) + 1) size [] ltac:(lia) (Forall_nil _))
    as [Ha Hl].
  assert (Hlog : Z.log2 size <= 31).
  { change 31 with (Z.log2 (2 ^ 32 - 1)). apply Z.log2_le_mono. lia. }
  pose proof (Z.log2_nonneg size).
  split.
  - apply utf8ToBytes_ascii. repeat (apply Forall_app; split).
    + repeat constructor; unfold ascii; lia.
    + exact Ha.
    + repeat constructor; unfold ascii; lia.
  - rewrite !length_app. simpl in Hl |- *. lia.
Qed.

Lemma be32_encode_length (x : Z) : length (be32_encode x) = 4%nat.
Proof. reflexivity. Qed.

(** C5 (as the code behaves).  The [RawFile] constructor replaces an empty
    name by ["file-<content length>.file"] (at most 255 UTF-8 bytes for
    content below [2^32] bytes); [pack] then fails with [InvalidName]
    exactly when the UTF-8 encoding of the name in use exceeds 255 bytes, and
    otherwise succeeds with a buffer of [1 + name_len + 4 + content_len]
    bytes. *)
Theorem pack_name_rules (data name : list Z) (Hdata : lenZ data < 2 ^ 32) :
  let f := newRawFile data name in
  let nbytes := utf8ToBytes (rf_name f) in
  rf_name f = match name with [] => default_name (lenZ data) | _ => name end
  /\ (name = [] -> lenZ nbytes <= 255)
  /\ (pack f = Err InvalidName <-> 255 < lenZ nbytes)
  /\ (lenZ nbytes <= 255 ->
      exists p, pack f = Ok p /\ lenZ p = 1 + lenZ nbytes + 4 + lenZ data).
Proof.
  intros f nbytes.
  assert (Hdn := default_name_bytes (lenZ data) ltac:(unfold lenZ in *; lia)).
  assert (Hne : (1 <= length nbytes)%nat).
  { unfold nbytes, f, newRawFile; cbn [rf_name].
    destruct name as [|c s].
    - destruct Hdn as [-> ?]. lia.
    - pose proof (utf8ToBytes_length_ge (c :: s)). simpl in *. lia. }
  split; [reflexivity|].
  split.
  { intros ->. unfold nbytes, f, newRawFile; cbn [rf_name].
    destruct Hdn as [-> ?]. set (dn := default_name (lenZ data)) in *. unfold lenZ. lia. }
  unfold pack, createHeader. fold nbytes.
  split.
  - destruct ((lenZ nbytes <? 1) || (255 <? lenZ nbytes)) eqn:E.
    + split; [intros _|reflexivity].
      apply orb_true_iff in E as [E|E]; apply Z.ltb_lt in E; unfold lenZ in *; lia.
    + split; [discriminate|]. intros H.
      apply orb_false_iff in E as [_ E]. apply Z.ltb_ge in E. lia.
  - intros Hle.
    replace ((lenZ nbytes <? 1) || (255 <? lenZ nbytes)) with false
      by (unfold lenZ in *; bool_lia).
    eexists; split; [reflexivity|].
    unfold lenZ. rewrite !length_app. cbn [length]. rewrite be32_encode_length.
    unfold f, newRawFile; cbn [rf_data]. lia.
Qed.

Lemma pack_name_rules_witness :
  lenZ [7] < 2 ^ 32 /\
  (lenZ (utf8ToBytes (rf_name (newRawFile [7] [])))  <= 255 ->
   exists p, pack (newRawFile [7] []) = Ok p
     /\ lenZ p = 1 + lenZ (utf8ToBytes (rf_name (newRawFile [7] []))) + 4 + lenZ [7]).
Proof.
  split; [reflexivity|].
  exact (proj2 (proj2 (proj2 (pack_name_rules [7] [] eq_refl)))).
Defined.

(** C5 as stated fails: [pack] with an empty name succeeds (with the
    default name ["file-0.file"]). *)
Lemma pack_empty_name_cex :
  rf_name (newRawFile [] []) = default_name 0
  /\ exists p, pack (newRawFile [] []) = Ok p /\ lenZ p = 16.
Proof. split; [reflexivity|]. eexists; split; reflexivity. Qed.

(** ** Claim C6: oversize rejection in [hide] *)

Lemma validateBits_ok (b : Z) : 1 <= b <= 8 -> validateBits b = Ok tt.
Proof. intros Hb. unfold validateBits. replace ((1 <=? b) && (b <=? 8)) with true by bool_lia. reflexivity. Qed.

Lemma calcCapacity_ok (L b : Z) :
  1 <= b <= 8 ->
  exists cap, calcCapacity L b = Ok cap
    /\ cap_bytes cap = Qfloor ((inject_Z (L - 4) / inject_Z 4 * inject_Z 3 * inject_Z b)
                               / inject_Z 8)%Q.
Proof.
  intros Hb. unfold calcCapacity. rewrite validateBits_ok by exact Hb.
  eexists; split; reflexivity.
Qed.

(** C6. With [bitsTaken] in [1,8], if the packed file is longer than
    [capacity - 28] bytes, [hide] fails with [LengthTooSmall] before calling
    [encrypt] (no plaintext was handed to it) and leaves the channel buffer
    as it was. *)
Theorem hide_rejects_oversize (encrypt : Encrypt) (m : store_mode) (rng : nat -> Z)
    (nonce : list Z) (f : RawFile) (key : list Z) (b : Z) (ch p : list Z)
    (Hb : 1 <= b <= 8) (Hp : pack f = Ok p) :
  exists cap, calcCapacity (lenZ ch) b = Ok cap /\
    (cap_bytes cap - ENCRYPTED_METADATA_SIZE < lenZ p ->
     hide encrypt m rng nonce f key b ch = MkHideOut (Err LengthTooSmall) ch []).
Proof.
  destruct (calcCapacity_ok (lenZ ch) b Hb) as [cap [Hc _]].
  exists cap; split; [exact Hc|]. intros Hlt.
  unfold hide. rewrite Hc.
  unfold packWithPadding. rewrite Hp. cbn [bind].
  replace (cap_bytes cap - ENCRYPTED_METADATA_SIZE - lenZ p <? 0) with true by bool_lia.
  reflexivity.
Qed.

Lemma hide_rejects_oversize_witness :
  1 <= 1 <= 8 /\ pack (newRawFile [1; 2; 3] [97]) = Ok [1; 97; 0; 0; 0; 3; 1; 2; 3] /\
  exists cap, calcCapacity (lenZ (repeat 0 16)) 1 = Ok cap /\
    (cap_bytes cap - ENCRYPTED_METADATA_SIZE < lenZ [1; 97; 0; 0; 0; 3; 1; 2; 3] ->
     hide toy_encrypt Wrapping (fun _ => 0) [] (newRawFile [1; 2; 3] [97]) [] 1 (repeat 0 16)
       = MkHideOut (Err LengthTooSmall) (repeat 0 16) []).
Proof.
  split; [lia|]. split; [reflexivity|].
  exact (hide_rejects_oversize toy_encrypt Wrapping (fun _ => 0) [] (newRawFile [1; 2; 3] [97])
           [] 1 (repeat 0 16) [1; 97; 0; 0; 0; 3; 1; 2; 3] ltac:(lia) eq_refl).
Defined.

(** ** Claims C4 and C1: a name starting with U+FEFF *)

(** The toy provider meets the AEAD contract of the spec: 28 bytes of
    overhead, and decryption inverts encryption. *)
Lemma toy_aead_contract (key nonce p : list Z) :
  length (toy_encrypt key nonce p) = (28 + length p)%nat
  /\ toy_decrypt key (toy_encrypt key nonce p) = Ok p.
Proof.
  assert (Hn : length (firstn 12 (nonce ++ repeat 0 12)) = 12%nat).
  { rewrite length_firstn, length_app, repeat_length. lia. }
  unfold toy_encrypt. split.
  { rewrite !length_app, Hn, repeat_length. lia. }
  unfold toy_decrypt. rewrite !length_app, Hn, repeat_length.
  replace (12 + (length p + 16) <? 28)%nat with false by (symmetry; apply Nat.ltb_ge; lia).
  set (nn := firstn 12 (nonce ++ repeat 0 12)) in *.
  replace (12 + (length p + 16) - 16)%nat with (length (nn ++ p)) by (rewrite length_app; lia).
  rewrite app_assoc, skipn_app, skipn_all, Nat.sub_diag, skipn_O. cbn [app].
  destruct (list_eq_dec Z.eq_dec _ _) as [_|Hne]; [|contradiction Hne; reflexivity].
  replace (12 + (length p + 16) - 28)%nat with (length p) by lia.
  rewrite <- app_assoc, skipn_app, skipn_all2 by lia.
  rewrite Hn, Nat.sub_diag, skipn_O. cbn [app].
  rewrite firstn_app, Nat.sub_diag, firstn_all. cbn [firstn]. rewrite app_nil_r. reflexivity.
Qed.

(** C4 fails on the code: the name "\uFEFFa" (U+FEFF then 'a', 4 UTF-8
    bytes) comes back from [fromPacked] as "a", packed with or without
    padding, because [TextDecoder] drops a leading byte order mark. *)
Theorem unpack_pack_bom_name :
  let f := newRawFile [7] [0xFEFF; 97] in
  lenZ (utf8ToBytes (rf_name f)) = 4
  /\ bind (pack f) fromPacked = Ok (newRawFile [7] [97])
  /\ bind (packWithPadding f 20) fromPacked = Ok (newRawFile [7] [97])
  /\ rf_name (newRawFile [7] [97]) <> rf_name f.
Proof. vm_compute. repeat split; discriminate. Qed.

(** C1 fails on the code for the same reason: hiding the file named
    "\uFEFFa" in a 14-pixel buffer at 8 bits per channel, with a provider
    meeting the AEAD contract, then revealing, yields the name "a". *)
Theorem reveal_hide_bom_name :
  let f := newRawFile [7] [0xFEFF; 97] in
  let key := repeat 1 32 in
  let o := hide toy_encrypt Wrapping (fun n => Z.of_nat n) (repeat 5 12) f key 8
                (repeat 0 56) in
  ho_result o = Ok tt
  /\ reveal toy_decrypt key (ho_channels o) = Ok (newRawFile [7] [97])
  /\ rf_name (newRawFile [7] [97]) <> rf_name f.
Proof. vm_compute. repeat split; discriminate. Qed.

(** ** The write cursor: invariants shared by all phases of [hideBlob] *)

Lemma nth_upd_ne (l : list Z) (n k : nat) (v d : Z) :
  n <> k -> nth k (upd l n v) d = nth k l d.
Proof.
  revert n k; induction l as [|h t IH]; intros [|n] [|k] Hne; simpl; auto.
  contradiction.
Qed.

Lemma nth_upd_eq (l : list Z) (n : nat) (v d : Z) :
  (n < length l)%nat -> nth n (upd l n v) d = v.
Proof.
  revert n; induction l as [|h t IH]; intros [|n] Hn; simpl in *; try lia; auto.
  apply IH; lia.
Qed.

Lemma lenZ_set (m : store_mode) (l : list Z) (i v : Z) : lenZ (set m l i v) = lenZ l.
Proof. unfold lenZ. rewrite set_length. reflexivity. Qed.

Lemma get_set_eq (m : store_mode) (l : list Z) (i v : Z) :
  0 <= i < lenZ l -> get (set m l i v) i = to_elem m v.
Proof.
  intros Hi. unfold get. rewrite lenZ_set.
  replace ((0 <=? i) && (i <? lenZ l)) with true by bool_lia.
  unfold set. replace ((0 <=? i) && (i <? lenZ l)) with true by bool_lia.
  apply nth_upd_eq. unfold lenZ in Hi. lia.
Qed.

Lemma get_set_ne (m : store_mode) (l : list Z) (i j v : Z) :
  i <> j -> get (set m l j v) i = get l i.
Proof.
  intros Hne. unfold get. rewrite lenZ_set.
  destruct ((0 <=? i) && (i <? lenZ l)) eqn:E; [|reflexivity].
  unfold set. destruct ((0 <=? j) && (j <? lenZ l)) eqn:E'; [|reflexivity].
  apply nth_upd_ne.
  rewrite andb_true_iff, Z.leb_le, Z.ltb_lt in E, E'. lia.
Qed.

(** One step of a [fold_left], as a rewriting equation. *)
Lemma fold_left_step {A B : Type} (f : A -> B -> A) (x : B) (l : list B) (a : A) :
  fold_left f (x :: l) a = fold_left f l (f a x).
Proof. reflexivity. Qed.

Section Phases.

Variable m : store_mode.
Variable rng : nat -> Z.

(** A property of the state kept by every step [hideBlob] takes. *)
Variable P : HState -> Prop.
Hypothesis P_write : forall bits data s, P s -> P (writeChannel m bits data s).
Hypothesis P_acc : forall buf bb s, P s -> P (set_acc buf bb s).
Hypothesis P_rand : forall s, P s -> P (snd (getRandomByte rng s)).

Lemma header_loop_P (fuel : nat) (b : Z) (s : HState) : P s -> P (header_loop m fuel b s).
Proof.
  revert s; induction fuel as [|f IH]; intros s Hs; simpl; auto.
  destruct (_ <? 3); auto.
Qed.

Lemma push_bit_P (b x : Z) (s : HState) : P s -> P (push_bit m b s x).
Proof.
  intros Hs. unfold push_bit. destruct (_ =? b); auto.
Qed.

Lemma hide_byte_P (b x : Z) (s : HState) : P s -> P (hide_byte m b s x).
Proof.
  intros Hs. unfold hide_byte. generalize bit_positions as l.
  intros l; revert s Hs; induction l as [|bit l IH]; intros s Hs; simpl; auto using push_bit_P.
Qed.

Lemma payload_P (b : Z) (hData : list Z) (s : HState) : P s -> P (payload m b hData s).
Proof.
  unfold payload. revert s; induction hData as [|x t IH]; intros s Hs; [exact Hs|].
  rewrite fold_left_step. apply IH, hide_byte_P, Hs.
Qed.

Lemma fill_random_P (n : nat) (i rb : Z) (s : HState) :
  P s -> P (snd (fill_random n i rb s)).
Proof.
  revert i s; induction n as [|n IH]; intros i s Hs; simpl; auto.
  destruct (7 <? i); simpl; auto.
Qed.

Lemma leftover_P (b : Z) (s : HState) : P s -> P (snd (leftover m rng b s)).
Proof.
  intros Hs. unfold leftover. destruct (_ =? 0); auto.
  destruct (getRandomByte rng s) as [rb s1] eqn:Er.
  assert (H1 : P s1) by (replace s1 with (snd (getRandomByte rng s)) by (rewrite Er; reflexivity); auto).
  pose proof (fill_random_P (Z.to_nat (b - hs_bufBits s1)) 0 rb s1 H1) as H2.
  destruct (fill_random _ _ _ _) as [[u|e] s2]; simpl in *; auto.
  destruct (negb _); simpl; auto.
Qed.

Lemma trail_P (fuel : nat) (L b : Z) (s : HState) : P s -> P (trail m rng fuel L b s).
Proof.
  revert s; induction fuel as [|f IH]; intros s Hs; simpl; auto.
  destruct (_ <? L); auto.
  apply IH, P_write, (P_rand s Hs).
Qed.

Lemma hide_writes_P (b : Z) (hData ch : list Z) :
  P (MkHState ch 0 0 0 O) -> P (snd (hide_writes m rng b hData ch)).
Proof.
  intros H0. unfold hide_writes.
  pose proof (leftover_P b _ (payload_P b hData _ (header_loop_P 3 b _ H0))) as H3.
  destruct (leftover _ _ _ _) as [[u|e] s3]; simpl in *; auto using trail_P.
Qed.

End Phases.

(** What a successful [hideBlob] leaves. *)
Lemma hideBlob_ok_inv (m : store_mode) (rng : nat -> Z) (hData : list Z) (b : Z)
    (ch ch' : list Z) :
  hideBlob m rng hData b ch = (Ok tt, ch') ->
  hs_ch (snd (hide_writes m rng b hData ch)) = ch'
  /\ hs_id (snd (hide_writes m rng b hData ch)) = lenZ ch.
Proof.
  unfold hideBlob.
  destruct (validateBits b); [|discriminate].
  destruct (calcCapacity _ _); [|discriminate].
  destruct (_ >? _); [discriminate|].
  destruct (hide_writes m rng b hData ch) as [[u|e] s]; [|discriminate].
  destruct (hs_id s =? lenZ ch) eqn:E; simpl; [|discriminate].
  intros [= <-]. split; [reflexivity|]. apply Z.eqb_eq, E.
Qed.

(** ** Claim C9: alpha channels after [hideBlob] *)

Lemma alpha_inv_write (m : store_mode) (L bits data : Z) (s : HState) :
  alpha_inv m L s -> alpha_inv m L (writeChannel m bits data s).
Proof.
  intros (Hlen & Hid & Hna & Hal). unfold writeChannel.
  set (id := hs_id s) in *.
  set (ch1 := set m (hs_ch s) id (Z.lor (clearBits (get (hs_ch s) id) bits) data)).
  assert (Hl1 : lenZ ch1 = L) by (unfold ch1; rewrite lenZ_set; exact Hlen).
  destruct (isAlpha (id + 1)) eqn:Ea; unfold isAlpha in Ea;
    [apply Z.eqb_eq in Ea | apply Z.eqb_neq in Ea];
    unfold alpha_inv; cbn [hs_ch hs_id].
  - refine (conj _ (conj _ (conj _ _))); [rewrite lenZ_set; exact Hl1 | lia | |].
    + intros Hc. replace (id + 1 + 1) with ((id + 1) + 1) in Hc by lia.
      rewrite Zplus_mod, Ea in Hc. simpl in Hc. discriminate.
    + intros i Hi HiL Hia. unfold isAlpha in Hia. apply Z.eqb_eq in Hia.
      destruct (Z.eq_dec i (id + 1)) as [-> | Hne1].
      * apply get_set_eq. lia.
      * rewrite get_set_ne by exact Hne1.
        assert (Hne0 : i <> id) by (intros ->; contradiction).
        unfold ch1. rewrite get_set_ne by exact Hne0.
        apply Hal; [lia | exact HiL | unfold isAlpha; apply Z.eqb_eq, Hia].
  - refine (conj Hl1 (conj _ (conj Ea _))); [lia|].
    intros i Hi HiL Hia. unfold isAlpha in Hia. apply Z.eqb_eq in Hia.
    assert (Hne0 : i <> id) by (intros ->; contradiction).
    unfold ch1. rewrite get_set_ne by exact Hne0.
    apply Hal; [lia | exact HiL | unfold isAlpha; apply Z.eqb_eq, Hia].
Qed.

Lemma hide_writes_alpha_inv (m : store_mode) (rng : nat -> Z) (b : Z) (hData ch : list Z) :
  alpha_inv m (lenZ ch) (snd (hide_writes m rng b hData ch)).
Proof.
  apply hide_writes_P.
  - intros bits data s. apply alpha_inv_write.
  - intros buf bb s H. exact H.
  - intros s H. exact H.
  - unfold alpha_inv; cbn [hs_ch hs_id]. repeat split; try lia. discriminate.
Qed.

(** C9. After [hideBlob] completes on a plain wrapping byte buffer, every
    alpha channel (index [i] with [i mod 4 = 3], index 3 of the header pixel
    included) holds 0: the stored 256 wraps to 0.  (The buffer length being
    a multiple of 4 is not needed.) *)
Theorem hideBlob_alpha_blank (rng : nat -> Z) (hData : list Z) (b : Z) (ch ch' : list Z)
    (Hok : hideBlob Wrapping rng hData b ch = (Ok tt, ch')) :
  length ch' = length ch
  /\ forall i, 0 <= i < lenZ ch' -> isAlpha i = true -> get ch' i = 0.
Proof.
  destruct (hideBlob_ok_inv _ _ _ _ _ _ Hok) as [Hch Hid].
  destruct (hide_writes_alpha_inv Wrapping rng b hData ch) as (Hlen & _ & _ & Hal).
  rewrite Hch in Hlen, Hal. rewrite Hid in Hal.
  split; [unfold lenZ in Hlen; lia|].
  intros i Hi Ha. apply (Hal i); [lia | lia | exact Ha].
Qed.

Lemma hideBlob_alpha_blank_witness :
  hideBlob Wrapping (fun _ => 255) [170] 1 (repeat 200 16)
    = (Ok tt, snd (hideBlob Wrapping (fun _ => 255) [170] 1 (repeat 200 16)))
  /\ length (snd (hideBlob Wrapping (fun _ => 255) [170] 1 (repeat 200 16))) = length (repeat 200 16)
  /\ forall i, 0 <= i < lenZ (snd (hideBlob Wrapping (fun _ => 255) [170] 1 (repeat 200 16))) ->
       isAlpha i = true -> get (snd (hideBlob Wrapping (fun _ => 255) [170] 1 (repeat 200 16))) i = 0.
Proof.
  assert (H : hideBlob Wrapping (fun _ => 255) [170] 1 (repeat 200 16)
              = (Ok tt, snd (hideBlob Wrapping (fun _ => 255) [170] 1 (repeat 200 16))))
    by (vm_compute; reflexivity).
  split; [exact H|].
  exact (hideBlob_alpha_blank _ _ _ _ _ H).
Defined.

(** ** Claim C7: the cursor accounting of [hideBlob] *)

Lemma writeChannel_id (m : store_mode) (bits data : Z) (s : HState) :
  hs_id (writeChannel m bits data s)
  = if isAlpha (hs_id s + 1) then hs_id s + 1 + 1 else hs_id s + 1.
Proof. unfold writeChannel. destruct (isAlpha _); reflexivity. Qed.

Lemma writeChannel_acc (m : store_mode) (bits data : Z) (s : HState) :
  hs_bufBits (writeChannel m bits data s) = hs_bufBits s
  /\ hs_buf (writeChannel m bits data s) = hs_buf s.
Proof. unfold writeChannel. destruct (isAlpha _); split; reflexivity. Qed.

Lemma pos_step (m : store_mode) (bits data : Z) (s : HState) (w : Z) :
  0 <= w -> hs_id s = pos w -> hs_id (writeChannel m bits data s) = pos (w + 1).
Proof.
  intros Hw Hs. rewrite writeChannel_id, Hs. unfold isAlpha, pos.
  destruct (Z.eqb_spec ((4 + w + w / 3 + 1) mod 4) 3);
    Z.div_mod_to_equations; lia.
Qed.

Lemma pos_lt (w k : Z) : 0 <= w -> pos w < pos k -> w < k.
Proof. unfold pos. intros. Z.div_mod_to_equations. lia. Qed.

Lemma push_bit_acc (m : store_mode) (b T x : Z) (s : HState) :
  acc_inv b T s -> acc_inv b (T + 1) (push_bit m b s x).
Proof.
  intros (w & Hw & Hid & Hbb & HT). unfold push_bit.
  destruct (Z.eqb_spec (hs_bufBits s + 1) b) as [E | E].
  - exists (w + 1). cbn [set_acc hs_id hs_bufBits].
    refine (conj _ (conj _ (conj _ _))); [lia | | lia | nia].
    apply pos_step; [exact Hw | exact Hid].
  - exists w. cbn [set_acc hs_id hs_bufBits]. repeat split; lia.
Qed.

Lemma hide_byte_acc (m : store_mode) (b T x : Z) (s : HState) :
  acc_inv b T s -> acc_inv b (T + 8) (hide_byte m b s x).
Proof.
  unfold hide_byte.
  assert (G : forall l T s, acc_inv b T s ->
     acc_inv b (T + lenZ l)
       (fold_left (fun s bit => push_bit m b s (readBit x bit)) l s)).
  { induction l as [|bit l IH]; intros T' s' H; cbn [fold_left].
    - unfold lenZ; cbn [length]. rewrite Z.add_0_r. exact H.
    - replace (T' + lenZ (bit :: l)) with ((T' + 1) + lenZ l) by (unfold lenZ; cbn [length]; lia).
      apply IH, push_bit_acc, H. }
  intros H. exact (G bit_positions T s H).
Qed.

Lemma payload_acc (m : store_mode) (b T : Z) (hData : list Z) (s : HState) :
  acc_inv b T s -> acc_inv b (T + 8 * lenZ hData) (payload m b hData s).
Proof.
  unfold payload. revert T s; induction hData as [|x t IH]; intros T s H; [|rewrite fold_left_step].
  - unfold lenZ; cbn [length]. rewrite Z.add_0_r. exact H.
  - replace (T + 8 * lenZ (x :: t)) with ((T + 8) + 8 * lenZ t) by (unfold lenZ; cbn [length]; lia).
    apply IH, hide_byte_acc, H.
Qed.

Lemma fill_random_ok (n : nat) (i rb : Z) (s : HState) :
  0 <= i -> i + Z.of_nat n <= 8 ->
  exists s', fill_random n i rb s = (Ok tt, s')
    /\ hs_id s' = hs_id s /\ hs_bufBits s' = hs_bufBits s + Z.of_nat n.
Proof.
  revert i s; induction n as [|n IH]; intros i s Hi Hn; cbn [fill_random].
  - exists s. repeat split; lia.
  - replace (7 <? i) with false by bool_lia.
    destruct (IH (i + 1) (set_acc (Z.lor (Z.shiftl (hs_buf s) 1) (readBit rb i))
                                  (hs_bufBits s + 1) s) ltac:(lia) ltac:(lia))
      as (s' & E & Hid & Hbb).
    exists s'. rewrite E. cbn [set_acc hs_id hs_bufBits] in Hid, Hbb. repeat split; lia.
Qed.

Lemma leftover_acc (m : store_mode) (rng : nat -> Z) (b T : Z) (s : HState) :
  1 <= b <= 8 -> acc_inv b T s ->
  exists s' W, leftover m rng b s = (Ok tt, s')
    /\ 0 <= W /\ hs_id s' = pos W /\ T <= W * b < T + b.
Proof.
  intros Hb (w & Hw & Hid & Hbb & HT). unfold leftover.
  destruct (Z.eqb_spec (hs_bufBits s) 0) as [E | E].
  - exists s, w. repeat split; try lia; auto.
  - cbn [getRandomByte hs_bufBits].
    set (s1 := MkHState (hs_ch s) (hs_id s) (hs_buf s) (hs_bufBits s) (S (hs_rnd s))).
    destruct (fill_random_ok (Z.to_nat (b - hs_bufBits s)) 0 (rng (hs_rnd s)) s1 ltac:(lia)
                ltac:(lia)) as (s2 & E2 & Hid2 & Hbb2).
    rewrite E2.
    cbn [hs_id hs_bufBits s1] in Hid2, Hbb2.
    replace (negb (hs_bufBits s2 =? b)) with false by bool_lia.
    exists (writeChannel m b (hs_buf s2) s2), (w + 1).
    refine (conj eq_refl (conj _ (conj _ _))); [lia | | nia].
    apply pos_step; [exact Hw | rewrite Hid2; exact Hid].
Qed.

Lemma trail_exact (m : store_mode) (rng : nat -> Z) (fuel : nat) (K b : Z) (s : HState) (W : Z) :
  0 <= W <= K -> K - W <= Z.of_nat fuel -> hs_id s = pos W ->
  hs_id (trail m rng fuel (pos K) b s) = pos K.
Proof.
  revert s W; induction fuel as [|f IH]; intros s W HW Hf Hid; cbn [trail].
  - replace W with K in Hid by lia. exact Hid.
  - destruct (Z.ltb_spec (hs_id s) (pos K)) as [Hlt | Hge].
    + cbn [getRandomByte].
      apply (IH _ (W + 1)).
      * rewrite Hid in Hlt. apply pos_lt in Hlt; lia.
      * lia.
      * apply pos_step; [lia | exact Hid].
    + rewrite Hid in Hge |- *. unfold pos in *. Z.div_mod_to_equations. nia.
Qed.

Lemma calcCapacity_bytes_mul4 (L b : Z) (cap : Capacity) :
  L mod 4 = 0 -> calcCapacity L b = Ok cap -> cap_bytes cap = ((L - 4) / 4 * 3 * b) / 8.
Proof.
  intros HL Hc.
  assert (Hb : 1 <= b <= 8).
  { unfold calcCapacity, validateBits in Hc.
    destruct ((1 <=? b) && (b <=? 8)) eqn:E; [|discriminate].
    rewrite andb_true_iff, !Z.leb_le in E. exact E. }
  destruct (calcCapacity_ok L b Hb) as [cap' [Hc' Hby]].
  rewrite Hc in Hc'. injection Hc' as <-. rewrite Hby.
  rewrite Zdiv_Qdiv. apply Qfloor_comp. rewrite (capacity_bits_mul4 L b HL). reflexivity.
Qed.

Lemma header_loop_start (m : store_mode) (b : Z) (ch : list Z) :
  hs_id (header_loop m 3 b (MkHState ch 0 0 0 O)) = 4
  /\ hs_bufBits (header_loop m 3 b (MkHState ch 0 0 0 O)) = 0.
Proof. split; reflexivity. Qed.

(** C7. On a buffer whose length is a multiple of 4, with [bitsTaken] in
    [1,8] and a payload of at most [capacity.bytes] bytes, the write sequence
    of [hideBlob] (header, payload with its partial-channel flush, trailing
    random fill) succeeds and leaves the cursor exactly at the buffer length;
    so [hideBlob] passes its [CursorMismatch] check (and succeeds). *)
Theorem hideBlob_cursor_exact (m : store_mode) (rng : nat -> Z) (b : Z) (hData ch : list Z)
    (cap : Capacity)
    (HL : lenZ ch mod 4 = 0) (Hb : 1 <= b <= 8)
    (Hcap : calcCapacity (lenZ ch) b = Ok cap) (Hfit : lenZ hData <= cap_bytes cap) :
  fst (hide_writes m rng b hData ch) = Ok tt
  /\ hs_id (snd (hide_writes m rng b hData ch)) = lenZ ch
  /\ fst (hideBlob m rng hData b ch) = Ok tt.
Proof.
  pose proof (calcCapacity_bytes_mul4 _ _ _ HL Hcap) as Hbytes.
  set (L := lenZ ch) in *.
  assert (HL0 : 0 <= L) by (unfold L, lenZ; lia).
  set (P := (L - 4) / 4) in *.
  assert (HLP : L = 4 + 4 * P).
  { assert (Hm : (L - 4) mod 4 = 0) by (rewrite Zminus_mod, HL; reflexivity).
    pose proof (Z.div_mod (L - 4) 4 ltac:(lia)). unfold P. lia. }
  set (n := lenZ hData) in *.
  assert (Hn0 : 0 <= n) by (unfold n, lenZ; lia).
  assert (HP : 0 <= P).
  { destruct (Z.le_gt_cases 0 P) as [H|H]; [exact H|].
    assert (P * 3 * b < 0) by nia.
    assert (P * 3 * b / 8 < 0) by (apply Z.div_lt_upper_bound; lia). lia. }
  assert (H8 : 8 * (P * 3 * b / 8) <= P * 3 * b) by (apply Z.mul_div_le; lia).
  (* after the header *)
  set (s1 := header_loop m 3 b (MkHState ch 0 0 0 O)).
  destruct (header_loop_start m b ch) as [Hid1 Hbb1]. fold s1 in Hid1, Hbb1.
  assert (A1 : acc_inv b 0 s1) by (exists 0; repeat split; try lia; rewrite Hid1; reflexivity).
  (* after the payload *)
  pose proof (payload_acc m b 0 hData s1 A1) as A2. rewrite Z.add_0_l in A2.
  destruct (leftover_acc m rng b _ _ Hb A2) as (s3 & W & E3 & HW & Hid3 & HWb).
  assert (HWK : W <= 3 * P) by nia.
  assert (HposK : pos (3 * P) = L).
  { unfold pos. replace (3 * P / 3) with P by (rewrite Z.mul_comm, Z.div_mul; lia). lia. }
  assert (Hfin : hs_id (trail m rng (length ch) L b s3) = L).
  { rewrite <- HposK.
    apply (trail_exact m rng (length ch) (3 * P) b s3 W); [lia | | exact Hid3].
    fold (lenZ ch). fold L. lia. }
  assert (Hw : hide_writes m rng b hData ch = (Ok tt, trail m rng (length ch) L b s3)).
  { unfold hide_writes. fold s1. rewrite E3. reflexivity. }
  rewrite Hw. cbn [fst snd].
  refine (conj eq_refl (conj Hfin _)).
  unfold hideBlob. fold L.
  rewrite validateBits_ok by exact Hb. rewrite Hcap.
  replace (lenZ hData >? cap_bytes cap) with false by (symmetry; rewrite Z.gtb_ltb; apply Z.ltb_ge; lia).
  rewrite Hw. rewrite Hfin, Z.eqb_refl. reflexivity.
Qed.

Lemma hideBlob_cursor_exact_witness :
  lenZ (repeat 0 56) mod 4 = 0 /\ 1 <= 3 <= 8
  /\ calcCapacity (lenZ (repeat 0 56)) 3 = Ok (MkCapacity (468 # 4) 14)
  /\ lenZ (repeat 255 14) <= cap_bytes (MkCapacity (468 # 4) 14)
  /\ fst (hide_writes Wrapping (fun k => Z.of_nat k) 3 (repeat 255 14) (repeat 0 56)) = Ok tt
  /\ hs_id (snd (hide_writes Wrapping (fun k => Z.of_nat k) 3 (repeat 255 14) (repeat 0 56)))
     = lenZ (repeat 0 56)
  /\ fst (hideBlob Wrapping (fun k => Z.of_nat k) (repeat 255 14) 3 (repeat 0 56)) = Ok tt.
Proof.
  assert (Hc : calcCapacity (lenZ (repeat 0 56)) 3 = Ok (MkCapacity (468 # 4) 14))
    by (vm_compute; reflexivity).
  split; [reflexivity|]. split; [lia|]. split; [exact Hc|]. split; [vm_compute; discriminate|].
  exact (hideBlob_cursor_exact Wrapping (fun k => Z.of_nat k) 3 (repeat 255 14) (repeat 0 56)
           (MkCapacity (468 # 4) 14) eq_refl ltac:(lia) Hc ltac:(vm_compute; discriminate)).
Defined.

(** ** UTF-8 round trip and unpacking a packed file *)

Lemma lor_low (a k y : Z) :
  0 <= k -> 0 <= y < 2 ^ k -> Z.lor (Z.shiftl a k) y = a * 2 ^ k + y.
Proof.
  intros Hk Hy.
  assert (H0 : Z.land (Z.shiftl a k) y = 0).
  { apply Z.bits_inj_0. intros i. rewrite Z.land_spec.
    destruct (Z.lt_ge_cases i k) as [Hi | Hi].
    - rewrite Z.shiftl_spec_low by exact Hi. reflexivity.
    - rewrite <- (Z.mod_small y (2 ^ k)) by lia.
      rewrite Z.mod_pow2_bits_high by lia. apply andb_false_r. }
  rewrite <- Z.lxor_lor by exact H0. rewrite <- Z.add_nocarry_lxor by exact H0.
  rewrite Z.shiftl_mul_pow2 by exact Hk. reflexivity.
Qed.

Lemma land_low (x k : Z) : 0 <= k -> Z.land x (2 ^ k - 1) = x mod 2 ^ k.
Proof.
  intros Hk. rewrite <- Z.land_ones by exact Hk. unfold Z.ones.
  rewrite Z.shiftl_1_l. reflexivity.
Qed.

Lemma d_step_init (b : Z) : d_step d_init b = d_lead b.
Proof. reflexivity. Qed.

Lemma d_lead_1 (b : Z) : b <= 0x7F -> d_lead b = ([b], d_init).
Proof. intros H. unfold d_lead. replace (b <=? 0x7F) with true by bool_lia. reflexivity. Qed.

Lemma d_lead_2 (b : Z) :
  0xC2 <= b <= 0xDF -> d_lead b = ([], DState (b mod 32) 1 0 0x80 0xBF).
Proof.
  intros H. unfold d_lead.
  replace (b <=? 0x7F) with false by bool_lia.
  replace ((0xC2 <=? b) && (b <=? 0xDF)) with true by bool_lia.
  change 0x1F with (2 ^ 5 - 1). rewrite (land_low b 5) by lia. reflexivity.
Qed.

Lemma d_lead_3 (b : Z) :
  0xE0 <= b <= 0xEF ->
  d_lead b = ([], DState (b mod 16) 2 0 (if b =? 0xE0 then 0xA0 else 0x80)
                                        (if b =? 0xED then 0x9F else 0xBF)).
Proof.
  intros H. unfold d_lead.
  replace (b <=? 0x7F) with false by bool_lia.
  replace ((0xC2 <=? b) && (b <=? 0xDF)) with false by bool_lia.
  replace ((0xE0 <=? b) && (b <=? 0xEF)) with true by bool_lia.
  change 0xF with (2 ^ 4 - 1). rewrite (land_low b 4) by lia. reflexivity.
Qed.

Lemma d_lead_4 (b : Z) :
  0xF0 <= b <= 0xF4 ->
  d_lead b = ([], DState (b mod 8) 3 0 (if b =? 0xF0 then 0x90 else 0x80)
                                       (if b =? 0xF4 then 0x8F else 0xBF)).
Proof.
  intros H. unfold d_lead.
  replace (b <=? 0x7F) with false by bool_lia.
  replace ((0xC2 <=? b) && (b <=? 0xDF)) with false by bool_lia.
  replace ((0xE0 <=? b) && (b <=? 0xEF)) with false by bool_lia.
  replace ((0xF0 <=? b) && (b <=? 0xF4)) with true by bool_lia.
  change 0x7 with (2 ^ 3 - 1). rewrite (land_low b 3) by lia. reflexivity.
Qed.

(** A continuation byte within the expected bounds. *)
Lemma d_step_cont (cp needed seen lo hi b : Z) :
  needed <> 0 -> lo <= b <= hi ->
  d_step (DState cp needed seen lo hi) b
  = if seen + 1 =? needed then ([cp * 64 + b mod 64], d_init)
    else ([], DState (cp * 64 + b mod 64) needed (seen + 1) 0x80 0xBF).
Proof.
  intros Hn Hb. unfold d_step; cbn [d_needed d_lower d_upper d_cp d_seen].
  replace (needed =? 0) with false by bool_lia.
  replace (negb ((lo <=? b) && (b <=? hi))) with false by bool_lia.
  change 0x3F with (2 ^ 6 - 1). rewrite (land_low b 6) by lia.
  rewrite lor_low by (pose proof (Z.mod_pos_bound b (2 ^ 6) ltac:(lia)); lia).
  reflexivity.
Qed.

Lemma lor_0x80 (y : Z) : 0 <= y < 64 -> Z.lor 0x80 y = 0x80 + y.
Proof.
  intros Hy. change 0x80 with (Z.shiftl 1 7). rewrite lor_low by lia. reflexivity.
Qed.

Lemma cont_byte (x : Z) : Z.lor 0x80 (Z.land x 0x3F) = 0x80 + x mod 64.
Proof.
  change 0x3F with (2 ^ 6 - 1). rewrite land_low by lia.
  apply lor_0x80. apply Z.mod_pos_bound. lia.
Qed.

Lemma utf8_encode_cp_arith (c : Z) :
  is_scalar c = true ->
  utf8_encode_cp c =
    if c <? 0x80 then [c]
    else if c <? 0x800 then [c / 64 + 0xC0; 0x80 + c mod 64]
    else if c <? 0x10000 then [c / 4096 + 0xE0; 0x80 + (c / 64) mod 64; 0x80 + c mod 64]
    else [c / 262144 + 0xF0; 0x80 + (c / 4096) mod 64; 0x80 + (c / 64) mod 64;
          0x80 + c mod 64].
Proof.
  intros Hs. unfold utf8_encode_cp. rewrite Hs.
  rewrite !Z.shiftr_div_pow2 by lia. rewrite !cont_byte. reflexivity.
Qed.

Lemma is_scalar_range (c : Z) :
  is_scalar c = true <-> 0 <= c <= 0x10FFFF /\ ~ (0xD800 <= c <= 0xDFFF).
Proof.
  unfold is_scalar. rewrite !andb_true_iff, negb_true_iff, andb_false_iff, !Z.leb_le.
  split.
  - intros [[H1 H2] H3]. split; [lia|]. destruct H3 as [H3|H3]; apply Z.leb_gt in H3; lia.
  - intros [H1 H2]. split; [lia|].
    destruct (Z.le_gt_cases 0xD800 c); [right|left]; apply Z.leb_gt; lia.
Qed.

Lemma d_step_mid (cp needed seen lo hi b : Z) :
  needed <> 0 -> lo <= b <= hi -> seen + 1 <> needed ->
  d_step (DState cp needed seen lo hi) b
  = ([], DState (cp * 64 + b mod 64) needed (seen + 1) 0x80 0xBF).
Proof.
  intros Hn Hb Hs. rewrite d_step_cont by assumption.
  destruct (Z.eqb_spec (seen + 1) needed); [contradiction | reflexivity].
Qed.

Lemma d_step_last (cp needed seen lo hi b : Z) :
  needed <> 0 -> lo <= b <= hi -> seen + 1 = needed ->
  d_step (DState cp needed seen lo hi) b = ([cp * 64 + b mod 64], d_init).
Proof.
  intros Hn Hb Hs. rewrite d_step_cont by assumption.
  destruct (Z.eqb_spec (seen + 1) needed); [reflexivity | contradiction].
Qed.

(** Decoding the encoding of one scalar value. *)
Lemma d_run_encode (c : Z) (rest : list Z) :
  is_scalar c = true ->
  d_run d_init (utf8_encode_cp c ++ rest) = c :: d_run d_init rest.
Proof.
  intros Hs. pose proof (proj1 (is_scalar_range c) Hs) as [Hr Hsur].
  rewrite utf8_encode_cp_arith by exact Hs.
  destruct (Z.ltb_spec c 0x80) as [H1|H1].
  { cbn [app d_run]. rewrite d_step_init, d_lead_1 by lia. reflexivity. }
  destruct (Z.ltb_spec c 0x800) as [H2|H2].
  { cbn [app d_run]. rewrite d_step_init, d_lead_2 by (Z.div_mod_to_equations; lia).
    cbn [app d_run].
    rewrite d_step_last by (try lia; Z.div_mod_to_equations; lia).
    cbn [app].
    f_equal. Z.div_mod_to_equations. lia. }
  destruct (Z.ltb_spec c 0x10000) as [H3|H3].
  { cbn [app d_run]. rewrite d_step_init, d_lead_3 by (Z.div_mod_to_equations; lia).
    cbn [app d_run].
    rewrite d_step_mid; try lia.
    2: { destruct (Z.eqb_spec (c / 4096 + 0xE0) 0xE0);
         destruct (Z.eqb_spec (c / 4096 + 0xE0) 0xED); Z.div_mod_to_equations; lia. }
    cbn [app d_run].
    rewrite d_step_last by (try lia; Z.div_mod_to_equations; lia).
    cbn [app].
    f_equal. Z.div_mod_to_equations. lia. }
  { cbn [app d_run]. rewrite d_step_init, d_lead_4 by (Z.div_mod_to_equations; lia).
    cbn [app d_run].
    rewrite d_step_mid; try lia.
    2: { destruct (Z.eqb_spec (c / 262144 + 0xF0) 0xF0);
         destruct (Z.eqb_spec (c / 262144 + 0xF0) 0xF4); Z.div_mod_to_equations; lia. }
    cbn [app d_run].
    rewrite d_step_mid by (try lia; Z.div_mod_to_equations; lia).
    cbn [app d_run].
    rewrite d_step_last by (try lia; Z.div_mod_to_equations; lia).
    cbn [app].
    f_equal. Z.div_mod_to_equations. lia. }
Qed.

Lemma d_run_utf8 (s : list Z) :
  Forall (fun c => is_scalar c = true) s -> d_run d_init (utf8ToBytes s) = s.
Proof.
  induction 1 as [|c s Hc Hs IH]; [reflexivity|].
  change (utf8ToBytes (c :: s)) with (utf8_encode_cp c ++ utf8ToBytes s).
  rewrite d_run_encode by exact Hc. rewrite IH. reflexivity.
Qed.

(** The only scalar value whose encoding starts with EF BB BF is U+FEFF. *)
Lemma utf8_bom_prefix (c : Z) (s rest : list Z) :
  is_scalar c = true ->
  utf8ToBytes (c :: s) = 0xEF :: 0xBB :: 0xBF :: rest -> c = 0xFEFF.
Proof.
  intros Hs H. pose proof (proj1 (is_scalar_range c) Hs) as [Hr Hsur].
  change (utf8ToBytes (c :: s)) with (utf8_encode_cp c ++ utf8ToBytes s) in H.
  rewrite utf8_encode_cp_arith in H by exact Hs.
  pose proof (f_equal (fun l => nth 0 l 0) H) as E0.
  pose proof (f_equal (fun l => nth 1 l 0) H) as E1.
  pose proof (f_equal (fun l => nth 2 l 0) H) as E2.
  clear H.
  destruct (Z.ltb_spec c 0x80); cbn [nth app] in E0; [lia|].
  destruct (Z.ltb_spec c 0x800); cbn [nth app] in E0.
  { Z.div_mod_to_equations. lia. }
  destruct (Z.ltb_spec c 0x10000); cbn [nth app] in E0, E1, E2.
  { Z.div_mod_to_equations. lia. }
  Z.div_mod_to_equations. lia.
Qed.

Lemma strip_bom_utf8 (s : list Z) :
  Forall (fun c => is_scalar c = true) s -> hd_error s <> Some 0xFEFF ->
  strip_bom (utf8ToBytes s) = utf8ToBytes s.
Proof.
  intros Hs Hhd. unfold strip_bom.
  destruct (utf8ToBytes s) as [|a [|b [|c rest]]] eqn:E; try reflexivity.
  destruct ((a =? 0xEF) && (b =? 0xBB) && (c =? 0xBF)) eqn:Eb; [|reflexivity].
  rewrite !andb_true_iff, !Z.eqb_eq in Eb. destruct Eb as [[-> ->] ->].
  destruct Hs as [|c0 s' Hc0 _]; [discriminate|].
  exfalso. apply Hhd. cbn [hd_error]. f_equal.
  exact (utf8_bom_prefix c0 s' rest Hc0 E).
Qed.

(** Decoding undoes encoding for every string of scalar values that does not
    start with U+FEFF. *)
Lemma bytesToUtf8_utf8ToBytes (s : list Z) :
  Forall (fun c => is_scalar c = true) s -> hd_error s <> Some 0xFEFF ->
  bytesToUtf8 (utf8ToBytes s) = s.
Proof.
  intros Hs Hhd. unfold bytesToUtf8. rewrite strip_bom_utf8 by assumption.
  apply d_run_utf8, Hs.
Qed.

Lemma be32_roundtrip (v : Z) :
  0 <= v < 2 ^ 32 ->
  let e := be32_encode v in
  be32_decode (nth 0 e 0) (nth 1 e 0) (nth 2 e 0) (nth 3 e 0) = v.
Proof.
  intros Hv e. unfold e, be32_encode, be32_decode. cbn [nth].
  rewrite (Z.mod_small v) by exact Hv.
  rewrite !Z.shiftr_div_pow2 by lia.
  change 255 with (2 ^ 8 - 1). rewrite !land_low by lia.
  rewrite (lor_low _ 8) by (try lia; apply Z.mod_pos_bound; lia).
  rewrite (lor_low _ 16).
  2: lia.
  2: { pose proof (Z.mod_pos_bound (v / 2 ^ 8) (2 ^ 8) ltac:(lia)).
       pose proof (Z.mod_pos_bound v (2 ^ 8) ltac:(lia)). lia. }
  rewrite (lor_low _ 24).
  2: lia.
  2: { pose proof (Z.mod_pos_bound (v / 2 ^ 16) (2 ^ 8) ltac:(lia)).
       pose proof (Z.mod_pos_bound (v / 2 ^ 8) (2 ^ 8) ltac:(lia)).
       pose proof (Z.mod_pos_bound v (2 ^ 8) ltac:(lia)). lia. }
  change (2 ^ 8) with 256 in *. change (2 ^ 16) with 65536 in *.
  change (2 ^ 24) with 16777216 in *. change (2 ^ 32) with 4294967296 in *.
  Z.div_mod_to_equations. lia.
Qed.

Lemma subarray_at (pre mid post : list Z) :
  subarray (pre ++ mid ++ post) (lenZ pre) (lenZ pre + lenZ mid) = mid.
Proof.
  rewrite subarray_in.
  2: { unfold lenZ. rewrite !length_app. lia. }
  2: { unfold lenZ. lia. }
  unfold lenZ. rewrite !Nat2Z.id.
  rewrite skipn_app, skipn_all, Nat.sub_diag, skipn_O. cbn [app].
  rewrite firstn_app, Nat.sub_diag, firstn_O, app_nil_r. apply firstn_all.
Qed.

Lemma getUint32_at (pre post : list Z) :
  (4 <= length post)%nat ->
  getUint32 (pre ++ post) (lenZ pre)
  = Ok (be32_decode (nth 0 post 0) (nth 1 post 0) (nth 2 post 0) (nth 3 post 0)).
Proof.
  intros Hp. unfold getUint32.
  replace ((0 <=? lenZ pre) && (lenZ pre + 4 <=? lenZ (pre ++ post))) with true
    by (unfold lenZ in *; rewrite length_app; bool_lia).
  unfold lenZ. rewrite Nat2Z.id.
  f_equal. f_equal; rewrite app_nth2 by lia; f_equal; lia.
Qed.

(** Unpacking inverts packing (with or without padding) for every content
    shorter than [2^32] bytes and every nonempty name of scalar values that
    does not start with U+FEFF and encodes to at most 255 bytes. *)
Lemma fromPacked_packWithPadding (data name : list Z) (req : Z) (p : list Z) :
  lenZ data < 2 ^ 32 ->
  Forall (fun c => is_scalar c = true) name -> name <> [] ->
  hd_error name <> Some 0xFEFF ->
  packWithPadding (newRawFile data name) req = Ok p ->
  fromPacked p = Ok (newRawFile data name).
Proof.
  intros Hd Hs Hne Hhd Hp.
  destruct name as [|c0 name']; [contradiction|].
  set (name := c0 :: name') in *.
  unfold packWithPadding, pack, createHeader in Hp.
  change (rf_name (newRawFile data name)) with name in Hp.
  change (rf_size (newRawFile data name)) with (lenZ data) in Hp.
  change (rf_data (newRawFile data name)) with data in Hp.
  set (nb := utf8ToBytes name) in *.
  set (n := lenZ nb) in *.
  destruct ((n <? 1) || (255 <? n)) eqn:Hn; [discriminate|].
  rewrite orb_false_iff, Z.ltb_ge, Z.ltb_ge in Hn.
  cbn [bind] in Hp.
  set (e := be32_encode (lenZ data)) in *.
  set (pad := repeat 0 _) in Hp.
  destruct (_ <? 0); [discriminate|].
  injection Hp as <-.
  assert (He : length e = 4%nat) by apply be32_encode_length.
  assert (Hd0 : 0 <= lenZ data) by (unfold lenZ; lia).
  match goal with
  | |- fromPacked ?l = _ =>
      replace l with (n :: nb ++ e ++ data ++ pad)
        by (cbn [app]; rewrite <- !app_assoc; reflexivity)
  end.
  unfold fromPacked.
  assert (G8 : getUint8 (n :: nb ++ e ++ data ++ pad) 0 = Ok n).
  { unfold getUint8.
    replace (0 + 1 <=? lenZ (n :: nb ++ e ++ data ++ pad)) with true.
    - reflexivity.
    - symmetry. apply Z.leb_le. unfold lenZ. cbn [length]. lia. }
  rewrite G8. cbn [bind].
  replace (n <? 1) with false by (symmetry; apply Z.ltb_ge; lia).
  assert (G1 : subarray (n :: nb ++ e ++ data ++ pad) 1 (1 + n) = nb)
    by exact (subarray_at [n] nb (e ++ data ++ pad)).
  assert (G32 : getUint32 (n :: nb ++ e ++ data ++ pad) (1 + n) = Ok (lenZ data)).
  { replace (1 + n) with (lenZ ([n] ++ nb))
      by (unfold n, lenZ; rewrite length_app; cbn [length]; lia).
    change (n :: nb ++ e ++ data ++ pad) with (([n] ++ nb) ++ (e ++ data ++ pad)).
    rewrite getUint32_at by (rewrite length_app; lia).
    rewrite !app_nth1 by lia.
    f_equal. apply be32_roundtrip. lia. }
  rewrite G1, G32. cbn [bind].
  replace (n :: nb ++ e ++ data ++ pad) with (([n] ++ nb ++ e) ++ data ++ pad)
    by (cbn [app]; rewrite <- app_assoc; reflexivity).
  replace (1 + n + 4) with (lenZ ([n] ++ nb ++ e))
    by (unfold n, lenZ; rewrite !length_app, He; cbn [length]; lia).
  rewrite subarray_at.
  unfold nb. rewrite bytesToUtf8_utf8ToBytes by assumption. reflexivity.
Qed.

Lemma fromPacked_pack (data name : list Z) (p : list Z) :
  lenZ data < 2 ^ 32 ->
  Forall (fun c => is_scalar c = true) name -> name <> [] ->
  hd_error name <> Some 0xFEFF ->
  pack (newRawFile data name) = Ok p ->
  fromPacked p = Ok (newRawFile data name).
Proof.
  intros Hd Hs Hne Hhd Hp.
  apply (fromPacked_packWithPadding data name (lenZ p)); try assumption.
  unfold packWithPadding. rewrite Hp. cbn [bind].
  rewrite Z.sub_diag. cbn. rewrite app_nil_r. reflexivity.
Qed.

(** * The hiding and revealing round trip, and further properties *)

(** ** Bit arithmetic *)

Lemma testbit_high (x n i : Z) : 0 <= x < 2 ^ n -> n <= i -> Z.testbit x i = false.
Proof.
  intros Hx Hi. destruct (Z.lt_ge_cases n 0) as [Hn|Hn].
  - rewrite Z.pow_neg_r in Hx by exact Hn. lia.
  - rewrite <- (Z.mod_small x (2 ^ n)) by lia. apply Z.mod_pow2_bits_high. lia.
Qed.

Lemma testbit_shift_add (a R n i : Z) :
  0 <= n -> 0 <= R < 2 ^ n -> 0 <= i ->
  Z.testbit (a * 2 ^ n + R) i = if i <? n then Z.testbit R i else Z.testbit a (i - n).
Proof.
  intros Hn HR Hi. rewrite <- lor_low by lia. rewrite Z.lor_spec, Z.shiftl_spec by lia.
  destruct (Z.ltb_spec i n).
  - rewrite (Z.testbit_neg_r a (i - n)) by lia. reflexivity.
  - rewrite (testbit_high R n i) by lia. apply orb_false_r.
Qed.

Lemma divmod_chunk (w r b : Z) : 0 <= r < b -> (w * b + r) / b = w /\ (w * b + r) mod b = r.
Proof.
  intros Hr. rewrite (Z.add_comm (w * b) r). split.
  - rewrite Z.div_add by lia. rewrite Z.div_small by lia. lia.
  - rewrite Z.mod_add by lia. apply Z.mod_small. lia.
Qed.

Lemma to_elem_range (m : store_mode) (v : Z) : 0 <= to_elem m v < 256.
Proof. destruct m; cbn [to_elem]; [apply Z.mod_pos_bound; lia | lia]. Qed.

Lemma to_elem_byte (m : store_mode) (v : Z) : 0 <= v < 256 -> to_elem m v = v.
Proof. intros H; destruct m; cbn [to_elem]; [apply Z.mod_small; lia | lia]. Qed.

Lemma clearBits_lor (curr bits data : Z) :
  0 <= bits -> 0 <= data < 2 ^ bits ->
  Z.lor (clearBits curr bits) data = curr / 2 ^ bits * 2 ^ bits + data.
Proof.
  intros. unfold clearBits. rewrite lor_low by lia. rewrite Z.shiftr_div_pow2 by lia.
  reflexivity.
Qed.

Lemma store_bits (m : store_mode) (curr bits data : Z) :
  0 <= curr < 256 -> 1 <= bits <= 8 -> 0 <= data < 2 ^ bits ->
  forall i, 0 <= i < bits ->
  Z.testbit (to_elem m (Z.lor (clearBits curr bits) data)) i = Z.testbit data i.
Proof.
  intros Hc Hb Hd i Hi.
  rewrite clearBits_lor by lia.
  assert (Hp : 0 < 2 ^ bits) by (apply Z.pow_pos_nonneg; lia).
  assert (H256 : 256 = 2 ^ (8 - bits) * 2 ^ bits)
    by (rewrite <- Z.pow_add_r by lia; replace (8 - bits + bits) with 8 by lia; reflexivity).
  assert (Hq : curr / 2 ^ bits < 2 ^ (8 - bits))
    by (apply Z.div_lt_upper_bound; lia).
  assert (Hq0 : 0 <= curr / 2 ^ bits) by (apply Z.div_pos; lia).
  rewrite to_elem_byte by nia.
  rewrite testbit_shift_add by lia.
  replace (i <? bits) with true by (symmetry; apply Z.ltb_lt; lia). reflexivity.
Qed.

Lemma readBit_spec (x p : Z) : p <= 7 -> readBit x p = Z.b2z (Z.testbit x (7 - p)).
Proof.
  intros Hp. unfold readBit. rewrite (Z.land_ones _ 1) by lia. change (2 ^ 1) with 2.
  rewrite <- Z.bit0_mod. rewrite Z.shiftr_spec by lia. reflexivity.
Qed.

Lemma b2z_range (c : bool) : 0 <= Z.b2z c <= 1.
Proof. destruct c; cbn; lia. Qed.

(** ** Frame lemmas of the typed-array stores *)

Lemma set_out (m : store_mode) (l : list Z) (j v : Z) :
  ~ (0 <= j < lenZ l) -> set m l j v = l.
Proof.
  intros H. unfold set.
  replace ((0 <=? j) && (j <? lenZ l)) with false; [reflexivity|].
  symmetry. apply andb_false_iff.
  destruct (Z.leb_spec 0 j); [right; apply Z.ltb_ge; lia | left; reflexivity].
Qed.

Lemma all_bytes_set (m : store_mode) (l : list Z) (j v : Z) :
  all_bytes l -> all_bytes (set m l j v).
Proof.
  intros H i. destruct (Z.eq_dec i j) as [->|Hne].
  - destruct (Z.le_gt_cases 0 j); [destruct (Z.lt_ge_cases j (lenZ l))|].
    + rewrite get_set_eq by lia. apply to_elem_range.
    + rewrite set_out by lia. apply H.
    + rewrite set_out by lia. apply H.
  - rewrite get_set_ne by exact Hne. apply H.
Qed.

Lemma all_bytes_Forall (l : list Z) : Forall (fun x => 0 <= x < 256) l -> all_bytes l.
Proof.
  intros HF i. unfold get. destruct (_ && _); [|lia].
  apply (Forall_nth_Z (fun x => 0 <= x < 256)); [exact HF | lia].
Qed.

Lemma writeChannel_len (m : store_mode) (bits data : Z) (s : HState) :
  lenZ (hs_ch (writeChannel m bits data s)) = lenZ (hs_ch s).
Proof. unfold writeChannel. destruct (isAlpha _); cbn [hs_ch]; rewrite !lenZ_set; reflexivity. Qed.

Lemma writeChannel_bytes (m : store_mode) (bits data : Z) (s : HState) :
  all_bytes (hs_ch s) -> all_bytes (hs_ch (writeChannel m bits data s)).
Proof.
  intros H. unfold writeChannel. destruct (isAlpha _); cbn [hs_ch]; auto using all_bytes_set.
Qed.

Lemma writeChannel_other (m : store_mode) (bits data : Z) (s : HState) (i : Z) :
  i <> hs_id s -> i <> hs_id s + 1 ->
  get (hs_ch (writeChannel m bits data s)) i = get (hs_ch s) i.
Proof.
  intros H1 H2. unfold writeChannel. destruct (isAlpha _); cbn [hs_ch];
    rewrite !get_set_ne by lia; reflexivity.
Qed.

Lemma writeChannel_here (m : store_mode) (bits data : Z) (s : HState) :
  0 <= hs_id s < lenZ (hs_ch s) ->
  get (hs_ch (writeChannel m bits data s)) (hs_id s)
  = to_elem m (Z.lor (clearBits (get (hs_ch s) (hs_id s)) bits) data).
Proof.
  intros H. unfold writeChannel. destruct (isAlpha _); cbn [hs_ch].
  - rewrite get_set_ne by lia. apply get_set_eq. exact H.
  - apply get_set_eq. exact H.
Qed.

Lemma writeChannel_header (m : store_mode) (b bits data : Z) (s : HState) :
  3 <= hs_id s -> header_ok b (hs_ch s) -> header_ok b (hs_ch (writeChannel m bits data s)).
Proof.
  intros Hid H i Hi. rewrite writeChannel_other by lia. apply H, Hi.
Qed.

Lemma writeChannel_chan_ok (m : store_mode) (L b bits data : Z) (s : HState) :
  3 <= hs_id s -> chan_ok L b (hs_ch s) -> chan_ok L b (hs_ch (writeChannel m bits data s)).
Proof.
  intros Hid (Hl & Hby & Hh). split; [rewrite writeChannel_len; exact Hl|].
  split; [apply writeChannel_bytes, Hby | apply writeChannel_header; assumption].
Qed.

Lemma pos_mono (j k : Z) : 0 <= j < k -> pos j < pos k.
Proof.
  intros H. unfold pos. assert (j / 3 <= k / 3) by (apply Z.div_le_mono; lia). lia.
Qed.

Lemma pos_ge4 (w : Z) : 0 <= w -> 4 <= pos w.
Proof. intros. unfold pos. assert (0 <= w / 3) by (apply Z.div_pos; lia). lia. Qed.

Lemma rbit_frame (m : store_mode) (b bits data : Z) (s : HState) (t : Z) :
  1 <= b -> 0 <= t -> pos (t / b) < hs_id s ->
  rbit (hs_ch (writeChannel m bits data s)) b t = rbit (hs_ch s) b t.
Proof.
  intros Hb Ht H. unfold rbit. rewrite writeChannel_other by lia. reflexivity.
Qed.

Lemma fill_random_bits (n : nat) (i rb : Z) (s : HState) :
  0 <= i -> i + Z.of_nat n <= 8 ->
  exists s' R, fill_random n i rb s = (Ok tt, s')
    /\ hs_ch s' = hs_ch s /\ hs_id s' = hs_id s
    /\ hs_bufBits s' = hs_bufBits s + Z.of_nat n
    /\ hs_buf s' = hs_buf s * 2 ^ Z.of_nat n + R /\ 0 <= R < 2 ^ Z.of_nat n.
Proof.
  revert i s; induction n as [|n IH]; intros i s Hi Hn; cbn [fill_random].
  - exists s, 0. cbn. repeat split; lia.
  - replace (7 <? i) with false by (rewrite Nat2Z.inj_succ in Hn; bool_lia).
    rewrite Nat2Z.inj_succ in Hn |- *.
    set (r := readBit rb i).
    destruct (IH (i + 1) (set_acc (Z.lor (Z.shiftl (hs_buf s) 1) r) (hs_bufBits s + 1) s)
                ltac:(lia) ltac:(lia)) as (s' & R & Hf & Hc & Hid & Hbb & Hbuf & HR).
    exists s', (r * 2 ^ Z.of_nat n + R).
    cbn [set_acc hs_ch hs_id hs_bufBits hs_buf] in *.
    assert (Hr : 0 <= r <= 1) by (unfold r; destruct (readBit_01 rb i); lia).
    rewrite lor_low in Hbuf by (change (2 ^ 1) with 2; lia).
    rewrite Z.pow_succ_r by lia.
    split; [exact Hf|]. split; [exact Hc|]. split; [exact Hid|]. split; [lia|]. split.
    + rewrite Hbuf. change (2 ^ 1) with 2. ring.
    + nia.
Qed.

Section WriteSide.

Variable m : store_mode.
Variable rng : nat -> Z.
Variable b L : Z.
Variable hData : list Z.
Hypothesis Hb : 1 <= b <= 8.
Hypothesis Hroom : forall w, 0 <= w -> w * b < 8 * lenZ hData -> pos w < L.

Lemma push_bit_write (T x : Z) (s : HState) :
  write_inv L b hData T s -> T < 8 * lenZ hData -> 0 <= x <= 1 ->
  Z.testbit x 0 = dbit hData T ->
  write_inv L b hData (T + 1) (push_bit m b s x).
Proof.
  intros (w & Hw & Hid & Hbb & HT & Hbuf & Hbits & Hr & Hc) HTn Hx Hx0.
  unfold push_bit.
  set (buf' := Z.lor (Z.shiftl (hs_buf s) 1) x).
  assert (Hv : buf' = hs_buf s * 2 ^ 1 + x)
    by (unfold buf'; rewrite lor_low by (change (2 ^ 1) with 2; lia); reflexivity).
  assert (Hbits' : forall i, 0 <= i < hs_bufBits s + 1 ->
                   Z.testbit buf' i = dbit hData (T + 1 - 1 - i)).
  { intros i Hi. rewrite Hv, testbit_shift_add by (change (2 ^ 1) with 2; lia).
    destruct (Z.ltb_spec i 1).
    - replace i with 0 by lia. rewrite Hx0. f_equal. lia.
    - rewrite Hbits by lia. f_equal. lia. }
  assert (Hrange' : 0 <= buf' < 2 ^ (hs_bufBits s + 1)).
  { rewrite Hv, Z.pow_add_r by lia. change (2 ^ 1) with 2. lia. }
  destruct (Z.eqb_spec (hs_bufBits s + 1) b) as [E | E].
  - set (s' := set_acc buf' (hs_bufBits s + 1) s).
    assert (Hid' : hs_id s' = pos w) by exact Hid.
    assert (HL : pos w < L) by (apply Hroom; lia).
    pose proof (pos_ge4 w Hw) as Hp4.
    destruct Hc as (Hl & Hby & Hh).
    exists (w + 1). cbn [set_acc hs_id hs_bufBits hs_buf hs_ch].
    refine (conj _ (conj _ (conj _ (conj _ (conj _ (conj _ (conj _ _))))))).
    + lia.
    + apply pos_step; [exact Hw | exact Hid'].
    + lia.
    + lia.
    + cbn. lia.
    + intros i Hi. lia.
    + intros t Ht.
      destruct (Z.lt_ge_cases t (w * b)) as [Hlt | Hge].
      * assert (Hj : t / b < w) by (apply Z.div_lt_upper_bound; lia).
        assert (Hj0 : 0 <= t / b) by (apply Z.div_pos; lia).
        rewrite rbit_frame by (try lia; rewrite Hid'; apply pos_mono; lia).
        apply Hr. lia.
      * destruct (divmod_chunk w (t - w * b) b ltac:(lia)) as [Hd Hm].
        replace (w * b + (t - w * b)) with t in Hd, Hm by lia.
        unfold rbit. rewrite Hd, Hm, <- Hid'.
        rewrite writeChannel_here by (cbn [s' set_acc hs_ch hs_id]; lia).
        cbn [s' set_acc hs_ch hs_id hs_buf].
        rewrite Hid. rewrite E in Hrange'.
        rewrite store_bits by (try apply Hby; lia).
        rewrite Hbits' by lia. f_equal. lia.
    + apply writeChannel_chan_ok.
      * rewrite Hid'. pose proof (pos_ge4 w Hw). lia.
      * split; [exact Hl | split; assumption].
  - exists w. cbn [set_acc hs_id hs_bufBits hs_buf hs_ch].
    refine (conj Hw (conj Hid (conj _ (conj _ (conj Hrange' (conj Hbits' (conj Hr Hc))))))).
    + lia.
    + lia.
Qed.

Lemma hide_byte_write (j x : Z) (s : HState) :
  0 <= j < lenZ hData -> get hData j = x ->
  write_inv L b hData (8 * j) s -> write_inv L b hData (8 * j + 8) (hide_byte m b s x).
Proof.
  intros Hj Hx H0.
  assert (Hp : forall p T s, 0 <= p < 8 -> T = 8 * j + p -> write_inv L b hData T s ->
                 write_inv L b hData (T + 1) (push_bit m b s (readBit x p))).
  { intros p T s' Hp HT Hs'. apply push_bit_write; [exact Hs' | lia | |].
    - destruct (readBit_01 x p); lia.
    - rewrite readBit_spec by lia. rewrite Z.b2z_bit0. unfold dbit.
      rewrite Z.mul_comm in HT.
      destruct (divmod_chunk j p 8 ltac:(lia)) as [Hd Hm]. rewrite HT, Hd, Hm, Hx.
      reflexivity. }
  unfold hide_byte, bit_positions. cbn [fold_left].
  do 8 (match goal with
        | |- write_inv _ _ _ ?T (push_bit _ _ _ (readBit _ ?p)) =>
            replace T with ((T - 1) + 1) by lia; apply (Hp p (T - 1)); [lia | lia | ]
        end).
  match goal with |- write_inv _ _ _ ?T _ => replace T with (8 * j) by lia; exact H0 end.
Qed.

Lemma payload_write (pre l : list Z) (s : HState) :
  hData = pre ++ l -> write_inv L b hData (8 * lenZ pre) s ->
  write_inv L b hData (8 * lenZ hData) (fold_left (hide_byte m b) l s).
Proof.
  revert pre s; induction l as [|x l IH]; intros pre s Hsplit Hs; [|rewrite fold_left_step].
  - rewrite app_nil_r in Hsplit. rewrite <- Hsplit in Hs. exact Hs.
  - apply (IH (pre ++ [x])); [rewrite <- app_assoc; exact Hsplit|].
    assert (Hlen : lenZ (pre ++ [x]) = lenZ pre + 1)
      by (unfold lenZ; rewrite length_app; cbn [length]; lia).
    rewrite Hlen, Z.mul_add_distr_l, Z.mul_1_r.
    apply hide_byte_write; [| | exact Hs].
    + rewrite Hsplit. unfold lenZ. rewrite length_app. cbn [length]. lia.
    + rewrite Hsplit. unfold get, lenZ.
      replace ((0 <=? Z.of_nat (length pre)) && (Z.of_nat (length pre) <? Z.of_nat (length (pre ++ x :: l))))
        with true by (rewrite length_app; cbn [length]; bool_lia).
      rewrite Nat2Z.id. apply nth_middle.
Qed.

Lemma header_loop_step (fuel : nat) (s : HState) :
  hs_id s < 3 ->
  header_loop m (S fuel) b s
  = header_loop m fuel b (writeChannel m 1 (readBit (b - 1) (8 - 3 + hs_id s)) s).
Proof. intros H. cbn [header_loop]. replace (hs_id s <? 3) with true by bool_lia. reflexivity. Qed.

Lemma header_write (ch : list Z) :
  lenZ ch = L -> 4 <= L -> all_bytes ch ->
  write_inv L b hData 0 (header_loop m 3 b (MkHState ch 0 0 0 O)).
Proof.
  intros Hl HL4 Hby.
  set (s0 := MkHState ch 0 0 0 O).
  set (s1 := writeChannel m 1 (readBit (b - 1) (8 - 3 + 0)) s0).
  assert (H1 : hs_id s1 = 1) by (unfold s1; rewrite writeChannel_id; reflexivity).
  set (s2 := writeChannel m 1 (readBit (b - 1) (8 - 3 + 1)) s1).
  assert (H2 : hs_id s2 = 2) by (unfold s2; rewrite writeChannel_id, H1; reflexivity).
  set (s3 := writeChannel m 1 (readBit (b - 1) (8 - 3 + 2)) s2).
  assert (H3 : hs_id s3 = 4) by (unfold s3; rewrite writeChannel_id, H2; reflexivity).
  assert (E : header_loop m 3 b s0 = s3).
  { rewrite header_loop_step by (cbn; lia). change (hs_id s0) with 0. fold s1.
    rewrite header_loop_step by (rewrite H1; lia). rewrite H1. fold s2.
    rewrite header_loop_step by (rewrite H2; lia). rewrite H2. fold s3.
    reflexivity. }
  rewrite E.
  assert (L1 : lenZ (hs_ch s1) = L) by (unfold s1; rewrite writeChannel_len; exact Hl).
  assert (L2 : lenZ (hs_ch s2) = L) by (unfold s2; rewrite writeChannel_len; exact L1).
  assert (B1 : all_bytes (hs_ch s1)) by (apply writeChannel_bytes, Hby).
  assert (B2 : all_bytes (hs_ch s2)) by (apply writeChannel_bytes, B1).
  assert (Hd : forall p, 0 <= readBit (b - 1) p < 2 ^ 1)
    by (intros p; destruct (readBit_01 (b - 1) p); change (2 ^ 1) with 2; lia).
  assert (Hbit : forall i, 0 <= i < 3 ->
            Z.testbit (readBit (b - 1) (8 - 3 + i)) 0 = Z.testbit (b - 1) (2 - i)).
  { intros i Hi. rewrite readBit_spec by lia. rewrite Z.b2z_bit0. f_equal. lia. }
  exists 0. cbn [hs_bufBits hs_buf].
  assert (Hacc : hs_bufBits s3 = 0 /\ hs_buf s3 = 0).
  { unfold s3, s2, s1. rewrite !(proj1 (writeChannel_acc _ _ _ _)), !(proj2 (writeChannel_acc _ _ _ _)).
    split; reflexivity. }
  destruct Hacc as [Hbb3 Hbuf3]. rewrite Hbb3, Hbuf3.
  split; [lia|]. split; [exact H3|]. split; [lia|]. split; [lia|].
  split; [cbn; lia|]. split; [intros; lia|]. split; [intros; lia|].
  split; [unfold s3; rewrite writeChannel_len; exact L2|].
  split; [apply writeChannel_bytes, B2|].
  intros i Hi.
  assert (Hcase : i = 0 \/ i = 1 \/ i = 2) by lia.
  destruct Hcase as [-> | [-> | ->]].
  - unfold s3. rewrite writeChannel_other by (rewrite H2; lia).
    unfold s2. rewrite writeChannel_other by (rewrite H1; lia).
    unfold s1. change 0 with (hs_id s0) at 1.
    rewrite writeChannel_here by (cbn; lia).
    rewrite store_bits by (try apply Hby; try apply Hd; lia). apply Hbit. lia.
  - unfold s3. rewrite writeChannel_other by (rewrite H2; lia).
    unfold s2. pose proof (writeChannel_here m 1 (readBit (b - 1) (8 - 3 + 1)) s1
                               ltac:(rewrite H1, L1; lia)) as W. rewrite H1 in W. rewrite W.
    rewrite store_bits by (try apply B1; try apply Hd; lia). apply Hbit. lia.
  - unfold s3. pose proof (writeChannel_here m 1 (readBit (b - 1) (8 - 3 + 2)) s2
                               ltac:(rewrite H2, L2; lia)) as W. rewrite H2 in W. rewrite W.
    rewrite store_bits by (try apply B2; try apply Hd; lia). apply Hbit. lia.
Qed.

Lemma leftover_write (T : Z) (s : HState) :
  T = 8 * lenZ hData -> write_inv L b hData T s ->
  exists s' W, leftover m rng b s = (Ok tt, s') /\ frozen_inv L b W hData s'.
Proof.
  intros HT (w & Hw & Hid & Hbb & HTw & Hbuf & Hbits & Hr & Hc).
  unfold leftover.
  destruct (Z.eqb_spec (hs_bufBits s) 0) as [E | E].
  - exists s, w. split; [reflexivity|].
    unfold frozen_inv. rewrite Hid.
    split; [exact Hw|]. split; [lia|]. split; [lia|]. split; [exact Hc|].
    intros t Ht. apply Hr. lia.
  - cbn [getRandomByte hs_bufBits].
    set (s1 := MkHState (hs_ch s) (hs_id s) (hs_buf s) (hs_bufBits s) (S (hs_rnd s))).
    destruct (fill_random_bits (Z.to_nat (b - hs_bufBits s)) 0 (rng (hs_rnd s)) s1
                ltac:(lia) ltac:(lia)) as (s2 & R & Hf & Hc2 & Hid2 & Hbb2 & Hbuf2 & HR).
    rewrite Hf. cbn [hs_ch hs_id hs_bufBits hs_buf s1] in Hc2, Hid2, Hbb2, Hbuf2.
    rewrite Z2Nat.id in Hbb2, Hbuf2, HR by lia.
    replace (negb (hs_bufBits s2 =? b)) with false by (rewrite Hbb2; bool_lia).
    eexists; exists (w + 1). split; [reflexivity|].
    assert (Hid2' : hs_id s2 = pos w) by (rewrite Hid2; exact Hid).
    assert (Hwb : w * b < 8 * lenZ hData) by lia.
    assert (HL : pos w < L) by (apply Hroom; lia).
    pose proof (pos_ge4 w Hw) as Hp4.
    destruct Hc as (Hl & Hby & Hh).
    assert (Hbr : 0 <= hs_buf s2 < 2 ^ b).
    { assert (Hp : 2 ^ b = 2 ^ hs_bufBits s * 2 ^ (b - hs_bufBits s))
        by (rewrite <- Z.pow_add_r by lia; f_equal; lia).
      rewrite Hbuf2, Hp. nia. }
    unfold frozen_inv.
    split; [lia|]. split; [lia|]. split; [|split].
    + rewrite (pos_step m b (hs_buf s2) s2 w Hw Hid2'). lia.
    + apply writeChannel_chan_ok; [lia|]. rewrite Hc2. split; [exact Hl | split; assumption].
    + intros t Ht.
      destruct (Z.lt_ge_cases t (w * b)) as [Hlt | Hge].
      * assert (Hj : t / b < w) by (apply Z.div_lt_upper_bound; lia).
        assert (Hj0 : 0 <= t / b) by (apply Z.div_pos; lia).
        rewrite rbit_frame by (try lia; rewrite Hid2'; apply pos_mono; lia).
        rewrite Hc2. apply Hr. lia.
      * destruct (divmod_chunk w (t - w * b) b ltac:(lia)) as [Hd Hm].
        replace (w * b + (t - w * b)) with t in Hd, Hm by lia.
        unfold rbit. rewrite Hd, Hm, <- Hid2'.
        rewrite writeChannel_here by (rewrite Hc2; lia).
        rewrite Hid2', Hc2.
        rewrite store_bits by (try apply Hby; lia).
        rewrite Hbuf2, testbit_shift_add by lia.
        replace (b - 1 - (t - w * b) <? b - hs_bufBits s) with false by bool_lia.
        rewrite Hbits by lia. f_equal. lia.
Qed.

Lemma frozen_write (W : Z) (bits data : Z) (s : HState) :
  frozen_inv L b W hData s -> frozen_inv L b W hData (writeChannel m bits data s).
Proof.
  intros (HW & Hcap & Hpos & Hc & Hr).
  pose proof (pos_ge4 W HW) as Hp4.
  unfold frozen_inv. rewrite writeChannel_id.
  split; [exact HW|]. split; [exact Hcap|]. split; [destruct (isAlpha _); lia|].
  split; [apply writeChannel_chan_ok; [lia | exact Hc]|].
  intros t Ht.
  assert (Hj : t / b < W) by (apply Z.div_lt_upper_bound; lia).
  assert (Hj0 : 0 <= t / b) by (apply Z.div_pos; lia).
  assert (Hp : pos (t / b) < hs_id s)
    by (apply (Z.lt_le_trans _ (pos W)); [apply pos_mono; lia | exact Hpos]).
  rewrite rbit_frame by lia.
  apply Hr, Ht.
Qed.

Lemma hide_writes_frozen (ch : list Z) :
  lenZ ch = L -> 4 <= L -> all_bytes ch ->
  exists W, fst (hide_writes m rng b hData ch) = Ok tt
    /\ frozen_inv L b W hData (snd (hide_writes m rng b hData ch)).
Proof.
  intros Hl HL4 Hby. unfold hide_writes.
  pose proof (header_write ch Hl HL4 Hby) as H1.
  pose proof (payload_write [] hData _ eq_refl H1) as H2.
  destruct (leftover_write _ _ eq_refl H2) as (s3 & W & E & H3).
  unfold payload. rewrite E. exists W. split; [reflexivity|]. cbn [snd].
  refine (trail_P m rng (frozen_inv L b W hData) _ _ _ _ _ _ H3).
  - intros bits data s' Hs'. apply frozen_write, Hs'.
  - intros s' Hs'. exact Hs'.
Qed.

End WriteSide.

Lemma pos_le (j k : Z) : 0 <= j <= k -> pos j <= pos k.
Proof.
  intros H. unfold pos. assert (j / 3 <= k / 3) by (apply Z.div_le_mono; lia). lia.
Qed.

Lemma pos_next (w : Z) :
  0 <= w -> (if isAlpha (pos w + 1) then pos w + 1 + 1 else pos w + 1) = pos (w + 1).
Proof.
  intros Hw. unfold isAlpha, pos.
  destruct (Z.eqb_spec ((4 + w + w / 3 + 1) mod 4) 3); Z.div_mod_to_equations; lia.
Qed.

Section ReadSide.

Variable ch : list Z.
Variable b : Z.
Hypothesis Hb : 1 <= b <= 8.

Lemma read_buf_bits (w buf bufBits : Z) :
  0 <= w -> 0 <= bufBits ->
  (forall i, 0 <= i < bufBits -> Z.testbit buf i = rbit ch b (w * b - 1 - i)) ->
  forall i, 0 <= i < bufBits + b ->
  Z.testbit (buf * 2 ^ b + get ch (pos w) mod 2 ^ b) i = rbit ch b ((w + 1) * b - 1 - i).
Proof.
  intros Hw Hbb Hbits i Hi.
  rewrite testbit_shift_add by (try apply Z.mod_pos_bound; lia).
  destruct (Z.ltb_spec i b) as [Hlt | Hge].
  - rewrite Z.mod_pow2_bits_low by lia.
    destruct (divmod_chunk w (b - 1 - i) b ltac:(lia)) as [Hd Hm].
    unfold rbit. replace ((w + 1) * b - 1 - i) with (w * b + (b - 1 - i)) by lia.
    rewrite Hd, Hm. f_equal. lia.
  - rewrite Hbits by lia. f_equal. lia.
Qed.

Lemma read_loop_spec (fuel : nat) (K w c buf bufBits : Z) (out : list Z) (outPos : Z) :
  read_inv ch b K w c buf bufBits out outPos ->
  lenZ ch - c <= Z.of_nat fuel ->
  let out' := read_loop fuel ch b (2 ^ b - 1) c buf bufBits out outPos in
  lenZ out' = K
  /\ forall k, 0 <= k < K -> (k < outPos \/ pos ((8 * k + 7) / b) < lenZ ch) ->
       byte_ok ch b (get out' k) k.
Proof.
  revert K w c buf bufBits out outPos.
  induction fuel as [|f IH]; intros K w c buf bufBits out outPos Hinv Hf; cbn zeta.
  - (* no fuel: the cursor is past the buffer *)
    destruct Hinv as (Hw & Hc & HT & Hbb & Hbuf & Hbits & Hlen & Hout).
    cbn [read_loop]. split; [exact Hlen|].
    intros k Hk Hor. destruct (Z.lt_ge_cases k outPos) as [Hlt | Hge]; [apply Hout; lia|].
    destruct Hor as [Hor | Hpos]; [lia|]. exfalso.
    assert (Hw' : w <= (8 * k + 7) / b) by (apply Z.div_le_lower_bound; nia).
    assert (pos w <= pos ((8 * k + 7) / b)) by (apply pos_le; lia).
    destruct (isAlpha c); lia.
  - destruct Hinv as (Hw & Hc & HT & Hbb & Hbuf & Hbits & Hlen & Hout).
    cbn [read_loop].
    destruct (Z.ltb_spec c (lenZ ch)) as [HcL | HcL].
    2: { split; [exact Hlen|].
         intros k Hk Hor. destruct (Z.lt_ge_cases k outPos) as [Hlt | Hge]; [apply Hout; lia|].
         destruct Hor as [Hor | Hpos]; [lia|]. exfalso.
         assert (Hw' : w <= (8 * k + 7) / b) by (apply Z.div_le_lower_bound; nia).
         assert (pos w <= pos ((8 * k + 7) / b)) by (apply pos_le; lia).
         destruct (isAlpha c); lia. }
    rewrite Hc.
    set (buf' := Z.lor (Z.shiftl buf b) (Z.land (get ch (pos w)) (2 ^ b - 1))).
    assert (Hv : buf' = buf * 2 ^ b + get ch (pos w) mod 2 ^ b).
    { unfold buf'. rewrite land_low by lia.
      rewrite lor_low by (try apply Z.mod_pos_bound; lia). reflexivity. }
    assert (Hbits' := read_buf_bits w buf bufBits Hw ltac:(lia) Hbits).
    rewrite <- Hv in Hbits'.
    assert (Hrange : 0 <= buf' < 2 ^ (bufBits + b)).
    { rewrite Hv, Z.pow_add_r by lia.
      pose proof (Z.mod_pos_bound (get ch (pos w)) (2 ^ b) ltac:(lia)). nia. }
    assert (Hc' : (if isAlpha (pos w + 1) then pos w + 1 + 1 else pos w + 1) = pos (w + 1))
      by (apply pos_next; exact Hw).
    assert (Hfuel : lenZ ch - (pos w + 1) <= Z.of_nat f)
      by (rewrite Nat2Z.inj_succ in Hf; destruct (isAlpha c); lia).
    destruct (Z.leb_spec 8 (bufBits + b)) as [H8 | H8].
    + set (lb := bufBits + b - 8).
      set (v := Z.shiftr buf' lb).
      assert (Hpw : 2 ^ (bufBits + b) = 2 ^ 8 * 2 ^ lb)
        by (rewrite <- Z.pow_add_r by lia; f_equal; unfold lb; lia).
      assert (Hvr : 0 <= v < 256).
      { unfold v. rewrite Z.shiftr_div_pow2 by lia.
        split; [apply Z.div_pos; lia|]. apply Z.div_lt_upper_bound; [lia|].
        change 256 with (2 ^ 8). lia. }
      assert (Hvb : forall i, 0 <= i < 8 -> Z.testbit v i = rbit ch b (8 * outPos + 7 - i)).
      { intros i Hi. unfold v. rewrite Z.shiftr_spec by lia.
        rewrite Hbits' by lia. f_equal. unfold lb. lia. }
      destruct (IH K (w + 1) (pos w + 1) (Z.land buf' (2 ^ lb - 1)) lb
                   (set Wrapping out outPos v) (outPos + 1)) as [Hl' Hk'].
      * split; [lia|]. split; [exact Hc'|]. split; [unfold lb; lia|].
        split; [unfold lb; lia|].
        rewrite land_low by (unfold lb; lia).
        split; [apply Z.mod_pos_bound; lia|].
        split.
        { intros i Hi. rewrite Z.mod_pow2_bits_low by lia.
          rewrite Hbits' by (unfold lb in *; lia). reflexivity. }
        split; [rewrite lenZ_set; exact Hlen|].
        intros k Hk HkK.
        destruct (Z.eq_dec k outPos) as [-> | Hne].
        { rewrite get_set_eq by lia. cbn [to_elem].
          rewrite Z.mod_small by exact Hvr. split; [exact Hvr | exact Hvb]. }
        rewrite get_set_ne by exact Hne. apply Hout; lia.
      * exact Hfuel.
      * split; [exact Hl'|]. intros k Hk Hor. apply Hk'; [exact Hk | lia].
    + destruct (IH K (w + 1) (pos w + 1) buf' (bufBits + b) out outPos) as [Hl' Hk'].
      * split; [lia|]. split; [exact Hc'|]. split; [lia|]. split; [lia|].
        split; [exact Hrange|]. split.
        { intros i Hi. rewrite Hbits' by lia. reflexivity. }
        split; [exact Hlen | exact Hout].
      * exact Hfuel.
      * split; [exact Hl' | exact Hk'].
Qed.

End ReadSide.

Lemma capacity_Q (L b : Z) :
  (inject_Z (L - 4) / inject_Z 4 * inject_Z 3 * inject_Z b / inject_Z 8
   == inject_Z (3 * b * (L - 4)) / inject_Z 32)%Q.
Proof.
  unfold Qeq, Qdiv, Qmult, Qinv, inject_Z. cbn [Qnum Qden]. lia.
Qed.

Lemma calcCapacity_bytes (L b : Z) (cap : Capacity) :
  calcCapacity L b = Ok cap -> 1 <= b <= 8 /\ cap_bytes cap = 3 * b * (L - 4) / 32.
Proof.
  intros Hc.
  assert (Hb : 1 <= b <= 8).
  { unfold calcCapacity, validateBits in Hc.
    destruct ((1 <=? b) && (b <=? 8)) eqn:E; [|discriminate].
    rewrite andb_true_iff, !Z.leb_le in E. exact E. }
  split; [exact Hb|].
  destruct (calcCapacity_ok L b Hb) as [cap' [Hc' Hby]].
  rewrite Hc in Hc'. injection Hc' as <-. rewrite Hby.
  rewrite Zdiv_Qdiv. apply Qfloor_comp. apply capacity_Q.
Qed.

Lemma room_pos (L b n w : Z) :
  1 <= b -> 8 * n <= 8 * (3 * b * (L - 4) / 32) -> 0 <= w -> w * b < 8 * n -> pos w < L.
Proof.
  intros Hb Hn Hw Hwb.
  assert (H32 : 32 * (3 * b * (L - 4) / 32) <= 3 * b * (L - 4))
    by (apply Z.mul_div_le; lia).
  assert (H4 : 4 * w < 3 * (L - 4)) by nia.
  unfold pos. Z.div_mod_to_equations. lia.
Qed.

Lemma revealBitsTaken_header_ok (b : Z) (ch : list Z) :
  1 <= b <= 8 -> header_ok b ch -> revealBitsTaken ch = Ok b.
Proof.
  intros Hb Hh. unfold revealBitsTaken.
  rewrite !(readBit_spec _ 7) by lia. rewrite !Z.sub_diag.
  rewrite (Hh 0), (Hh 1), (Hh 2) by lia.
  assert (Hcase : b = 1 \/ b = 2 \/ b = 3 \/ b = 4 \/ b = 5 \/ b = 6 \/ b = 7 \/ b = 8) by lia.
  destruct Hcase as [-> | [-> | [-> | [-> | [-> | [-> | [-> | ->]]]]]]]; reflexivity.
Qed.

Lemma hideBlob_ok_cap (m : store_mode) (rng : nat -> Z) (hData : list Z) (b : Z)
    (ch ch' : list Z) :
  hideBlob m rng hData b ch = (Ok tt, ch') ->
  exists cap, calcCapacity (lenZ ch) b = Ok cap /\ lenZ hData <= cap_bytes cap.
Proof.
  unfold hideBlob.
  destruct (validateBits b); [|discriminate].
  destruct (calcCapacity _ _) as [cap|]; [|discriminate].
  destruct (Z.gtb_spec (lenZ hData) (cap_bytes cap)); [discriminate|].
  intros _. exists cap. split; [reflexivity | lia].
Qed.

Lemma firstn_get (l out : list Z) :
  lenZ l <= lenZ out -> (forall k, 0 <= k < lenZ l -> get out k = get l k) ->
  firstn (length l) out = l.
Proof.
  intros Hlen Hk. unfold lenZ in Hlen.
  apply nth_ext with (d := 0) (d' := 0).
  - rewrite length_firstn. lia.
  - intros n Hn. rewrite length_firstn in Hn.
    rewrite <- (firstn_skipn (length l) out) in Hk.
    specialize (Hk (Z.of_nat n) ltac:(unfold lenZ; lia)).
    unfold get, lenZ in Hk. rewrite Nat2Z.id in Hk.
    rewrite length_app, length_firstn in Hk.
    replace ((0 <=? Z.of_nat n) && (Z.of_nat n <? Z.of_nat (Nat.min (length l) (length out) + length (skipn (length l) out))))
      with true in Hk by bool_lia.
    replace ((0 <=? Z.of_nat n) && (Z.of_nat n <? Z.of_nat (length l))) with true in Hk by bool_lia.
    rewrite app_nth1 in Hk by (rewrite length_firstn; lia). exact Hk.
Qed.

Lemma byte_ok_eq (ch : list Z) (b : Z) (hData : list Z) (v k : Z) :
  0 <= k -> 0 <= get hData k < 256 ->
  (forall t, 8 * k <= t < 8 * k + 8 -> rbit ch b t = dbit hData t) ->
  byte_ok ch b v k -> v = get hData k.
Proof.
  intros Hk Hd Hr (Hv & Hbits).
  apply Z.bits_inj'. intros i Hi.
  destruct (Z.lt_ge_cases i 8) as [Hlt | Hge].
  - rewrite Hbits by lia. rewrite Hr by lia. unfold dbit.
    destruct (divmod_chunk k (7 - i) 8 ltac:(lia)) as [Hd1 Hm1].
    replace (8 * k + 7 - i) with (k * 8 + (7 - i)) by lia.
    rewrite Hd1, Hm1. f_equal. lia.
  - rewrite !(testbit_high _ 8) by (try change (2 ^ 8) with 256; lia). reflexivity.
Qed.

Lemma hideBlob_reveal_full (m : store_mode) (rng : nat -> Z) (hData : list Z) (b : Z)
    (ch ch' : list Z) :
  Forall (fun x => 0 <= x < 256) ch -> Forall (fun x => 0 <= x < 256) hData ->
  hideBlob m rng hData b ch = (Ok tt, ch') ->
  exists cap out, calcCapacity (lenZ ch) b = Ok cap /\ revealBlob ch' = Ok out
    /\ lenZ out = cap_bytes cap /\ firstn (length hData) out = hData.
Proof.
  intros Hch Hd Hok.
  destruct (hideBlob_ok_cap m rng hData b ch ch' Hok) as (cap & Hcap & Hfit).
  destruct (calcCapacity_bytes _ _ _ Hcap) as [Hb Hbytes].
  destruct (hideBlob_ok_inv m rng hData b ch ch' Hok) as [Hch' _].
  set (L := lenZ ch) in *.
  assert (Hn0 : 0 <= lenZ hData) by (unfold lenZ; lia).
  assert (HL4 : 4 <= L).
  { destruct (Z.lt_ge_cases L 4) as [Hlt|]; [|lia].
    assert (3 * b * (L - 4) / 32 < 0) by (apply Z.div_lt_upper_bound; nia). lia. }
  assert (Hroom : forall w, 0 <= w -> w * b < 8 * lenZ hData -> pos w < L)
    by (intros w Hw Hwb; apply (room_pos L b (lenZ hData) w); lia).
  destruct (hide_writes_frozen m rng b L hData Hb Hroom ch eq_refl HL4 (all_bytes_Forall _ Hch))
    as (W & _ & HW & Hcap8 & Hpos & (Hl' & Hby' & Hh') & Hr).
  rewrite Hch' in Hl', Hby', Hh', Hr.
  unfold revealBlob. rewrite (revealBitsTaken_header_ok b ch' Hb Hh'). cbn [bind].
  rewrite Hl', Hcap. cbn [bind].
  replace (cap_bytes cap <? 0) with false by bool_lia.
  exists cap. eexists; split; [reflexivity|]. split; [reflexivity|].
  set (K := cap_bytes cap).
  destruct (read_loop_spec ch' b Hb (length ch') K 0 4 0 0 (repeat 0 (Z.to_nat K)) 0)
    as [Hlen Hbytes'].
  - split; [lia|]. split; [reflexivity|]. split; [lia|]. split; [lia|].
    split; [cbn; lia|]. split; [intros; lia|].
    split; [unfold lenZ; rewrite repeat_length; lia|]. intros; lia.
  - unfold lenZ. lia.
  - split; [exact Hlen|].
    apply firstn_get; [rewrite Hlen; lia|].
    intros k Hk.
    assert (Hj0 : 0 <= (8 * k + 7) / b) by (apply Z.div_pos; lia).
    assert (Hjb : (8 * k + 7) / b * b <= 8 * k + 7) by (rewrite Z.mul_comm; apply Z.mul_div_le; lia).
    apply (byte_ok_eq ch' b hData); [lia | apply all_bytes_Forall, Hd | |].
    + intros t Ht. apply Hr. lia.
    + apply Hbytes'; [lia|]. right. rewrite Hl'. apply Hroom; [exact Hj0 | lia].
Qed.

(** X1. On a buffer of bytes, when [hideBlob] succeeds on a payload of bytes,
    [revealBlob] on the buffer it leaves succeeds and its output starts with
    the payload: revealing recovers the hidden bytes, for every buffer length. *)
Theorem hideBlob_revealBlob (m : store_mode) (rng : nat -> Z) (hData : list Z) (b : Z)
    (ch ch' : list Z) :
  Forall (fun x => 0 <= x < 256) ch -> Forall (fun x => 0 <= x < 256) hData ->
  hideBlob m rng hData b ch = (Ok tt, ch') ->
  exists out, revealBlob ch' = Ok out /\ firstn (length hData) out = hData.
Proof.
  intros Hch Hd Hok.
  destruct (hideBlob_reveal_full m rng hData b ch ch' Hch Hd Hok) as (cap & out & _ & Hr & _ & Hf).
  exists out. split; assumption.
Qed.

Lemma pos_onto (L : Z) : 4 <= L -> L mod 4 <> 3 -> exists K, 0 <= K /\ pos K = L.
Proof.
  intros HL H3.
  exists (3 * ((L - 4) / 4) + (L - 4) mod 4).
  assert (Hr : (L - 4) mod 4 <> 3) by (rewrite Zminus_mod; change (4 mod 4) with 0;
    rewrite Z.sub_0_r, Z.mod_mod by lia; exact H3).
  pose proof (Z.mod_pos_bound (L - 4) 4 ltac:(lia)).
  pose proof (Z.div_mod (L - 4) 4 ltac:(lia)).
  assert (0 <= (L - 4) / 4) by (apply Z.div_pos; lia).
  split; [lia|]. unfold pos.
  replace ((3 * ((L - 4) / 4) + (L - 4) mod 4) / 3) with ((L - 4) / 4).
  - lia.
  - symmetry. rewrite Z.add_comm, Z.mul_comm, Z.div_add by lia.
    rewrite Z.div_small by lia. lia.
Qed.

Lemma hideBlob_fits_ok (m : store_mode) (rng : nat -> Z) (b : Z) (hData ch : list Z)
    (cap : Capacity) :
  lenZ ch mod 4 <> 3 -> calcCapacity (lenZ ch) b = Ok cap -> lenZ hData <= cap_bytes cap ->
  hideBlob m rng hData b ch = (Ok tt, hs_ch (snd (hide_writes m rng b hData ch))).
Proof.
  intros H3 Hcap Hfit.
  destruct (calcCapacity_bytes _ _ _ Hcap) as [Hb Hbytes].
  set (L := lenZ ch) in *.
  assert (Hn0 : 0 <= lenZ hData) by (unfold lenZ; lia).
  assert (HL4 : 4 <= L).
  { destruct (Z.lt_ge_cases L 4) as [Hlt|]; [|lia].
    assert (3 * b * (L - 4) / 32 < 0) by (apply Z.div_lt_upper_bound; nia). lia. }
  destruct (pos_onto L HL4 H3) as (K & HK0 & HK).
  set (s1 := header_loop m 3 b (MkHState ch 0 0 0 O)).
  destruct (header_loop_start m b ch) as [Hid1 Hbb1]. fold s1 in Hid1, Hbb1.
  assert (A1 : acc_inv b 0 s1) by (exists 0; repeat split; try lia; rewrite Hid1; reflexivity).
  pose proof (payload_acc m b 0 hData s1 A1) as A2. rewrite Z.add_0_l in A2.
  destruct (leftover_acc m rng b _ _ Hb A2) as (s3 & W & E3 & HW & Hid3 & HWb).
  assert (HWK : W <= K).
  { destruct (Z.eq_dec W 0) as [->|HW0]; [lia|].
    assert (Hp : pos (W - 1) < L)
      by (apply (room_pos L b (lenZ hData) (W - 1)); nia).
    rewrite <- HK in Hp. apply pos_lt in Hp; lia. }
  assert (Hfin : hs_id (trail m rng (length ch) L b s3) = L).
  { rewrite <- HK.
    apply (trail_exact m rng (length ch) K b s3 W); [lia | | exact Hid3].
    assert (pos K <= Z.of_nat (length ch)) by (rewrite HK; unfold L, lenZ; lia).
    assert (K <= pos K) by (unfold pos; assert (0 <= K / 3) by (apply Z.div_pos; lia); lia).
    lia. }
  assert (Hw : hide_writes m rng b hData ch = (Ok tt, trail m rng (length ch) L b s3)).
  { unfold hide_writes. fold s1. rewrite E3. reflexivity. }
  unfold hideBlob. fold L.
  rewrite validateBits_ok by exact Hb. rewrite Hcap.
  replace (lenZ hData >? cap_bytes cap) with false by (symmetry; rewrite Z.gtb_ltb; apply Z.ltb_ge; lia).
  rewrite Hw. cbn [snd]. rewrite Hfin, Z.eqb_refl. reflexivity.
Qed.


Lemma default_name_ascii (size : Z) : 0 <= size -> Forall ascii (default_name size).
Proof.
  intros Hs. unfold default_name, decimal.
  destruct (digits_aux_spec (Z.to_nat (Z.log2 size) + 1) size [] Hs (Forall_nil _))
    as [Ha _].
  repeat (apply Forall_app; split).
  - repeat constructor; unfold ascii; lia.
  - exact Ha.
  - repeat constructor; unfold ascii; lia.
Qed.

Lemma ascii_scalar (l : list Z) : Forall ascii l -> Forall (fun c => is_scalar c = true) l.
Proof.
  apply Forall_impl. intros c Hc. unfold ascii in Hc. unfold is_scalar. bool_lia.
Qed.

Lemma newRawFile_empty (data : list Z) :
  newRawFile data [] = newRawFile data (default_name (lenZ data)).
Proof. reflexivity. Qed.

Lemma fromPacked_packWithPadding_any (data name : list Z) (req : Z) (p : list Z) :
  lenZ data < 2 ^ 32 ->
  Forall (fun c => is_scalar c = true) name -> hd_error name <> Some 0xFEFF ->
  packWithPadding (newRawFile data name) req = Ok p ->
  fromPacked p = Ok (newRawFile data name).
Proof.
  intros Hd Hs Hhd Hp.
  assert (Hd0 : 0 <= lenZ data) by (unfold lenZ; lia).
  destruct name as [|c0 name'].
  - rewrite newRawFile_empty in Hp |- *.
    apply fromPacked_packWithPadding with (req := req); try assumption.
    + apply ascii_scalar, default_name_ascii, Hd0.
    + unfold default_name. discriminate.
    + unfold default_name. cbn. discriminate.
  - apply fromPacked_packWithPadding with (req := req); try assumption. discriminate.
Qed.

Lemma packWithPadding_spec (f : RawFile) (req : Z) (packed : list Z) :
  pack f = Ok packed ->
  (req < lenZ packed -> packWithPadding f req = Err LengthTooSmall)
  /\ (lenZ packed <= req ->
      packWithPadding f req = Ok (packed ++ repeat 0 (Z.to_nat (req - lenZ packed)))
      /\ lenZ (packed ++ repeat 0 (Z.to_nat (req - lenZ packed))) = req).
Proof.
  intros Hp. unfold packWithPadding. rewrite Hp. cbn [bind]. split.
  - intros Hlt. replace (req - lenZ packed <? 0) with true by bool_lia. reflexivity.
  - intros Hle. replace (req - lenZ packed <? 0) with false by bool_lia.
    split; [reflexivity|].
    unfold lenZ in *. rewrite length_app, repeat_length. lia.
Qed.

Lemma utf8_encode_cp_bytes (c : Z) :
  is_scalar c = true -> Forall (fun x => 0 <= x < 256) (utf8_encode_cp c).
Proof.
  intros Hc. rewrite utf8_encode_cp_arith by exact Hc.
  apply is_scalar_range in Hc.
  destruct (Z.ltb_spec c 0x80); [repeat constructor; lia|].
  destruct (Z.ltb_spec c 0x800);
    [repeat constructor; Z.div_mod_to_equations; lia|].
  destruct (Z.ltb_spec c 0x10000); repeat constructor; Z.div_mod_to_equations; lia.
Qed.

Lemma utf8ToBytes_bytes (s : list Z) :
  Forall (fun c => is_scalar c = true) s -> Forall (fun x => 0 <= x < 256) (utf8ToBytes s).
Proof.
  induction 1 as [|c s Hc _ IH]; [constructor|].
  cbn [utf8ToBytes flat_map]. apply Forall_app. split; [apply utf8_encode_cp_bytes, Hc | exact IH].
Qed.

Lemma be32_encode_bytes (x : Z) : Forall (fun y => 0 <= y < 256) (be32_encode x).
Proof.
  unfold be32_encode. change 255 with (2 ^ 8 - 1). rewrite !land_low by lia.
  repeat constructor; apply Z.mod_pos_bound; lia.
Qed.

Lemma pack_bytes (data name : list Z) (p : list Z) :
  lenZ data < 2 ^ 32 ->
  Forall (fun c => is_scalar c = true) name -> Forall (fun x => 0 <= x < 256) data ->
  pack (newRawFile data name) = Ok p -> Forall (fun x => 0 <= x < 256) p.
Proof.
  intros Hd Hs Hdb Hp.
  assert (Hn : Forall (fun c => is_scalar c = true) (rf_name (newRawFile data name))).
  { destruct name; [|exact Hs]. apply ascii_scalar, default_name_ascii. unfold lenZ; lia. }
  unfold pack, createHeader in Hp.
  destruct (_ || _) eqn:E; [discriminate|]. cbn [bind] in Hp. injection Hp as <-.
  rewrite orb_false_iff, !Z.ltb_ge in E.
  cbn [app]. cbn [rf_name rf_size rf_data newRawFile] in E |- *. constructor; [lia|].
  repeat (apply Forall_app; split).
  - apply utf8ToBytes_bytes, Hn.
  - apply be32_encode_bytes.
  - exact Hdb.
Qed.

Lemma firstn_full (l out : list Z) : length out = length l -> firstn (length l) out = l -> out = l.
Proof. intros Hl Hf. rewrite <- Hl, firstn_all in Hf. exact Hf. Qed.

(** X2. With an AEAD provider that adds 28 bytes, outputs bytes and whose
    [decrypt] inverts [encrypt] on bytes, a buffer of bytes whose length is
    not 3 modulo 4, content bytes below [2^32] bytes and a name of Unicode
    scalars not starting with U+FEFF (possibly empty) whose packed form fits
    [capacity - 28]: [hide] succeeds and [reveal] returns the file. *)
Theorem hide_reveal_roundtrip (encrypt : Encrypt) (decrypt : Decrypt) (m : store_mode)
    (rng : nat -> Z) (nonce key data name : list Z) (b : Z) (ch : list Z) (cap : Capacity)
    (p : list Z)
    (Henc : forall q, Forall (fun x => 0 <= x < 256) q ->
       lenZ (encrypt key nonce q) = lenZ q + ENCRYPTED_METADATA_SIZE
       /\ Forall (fun x => 0 <= x < 256) (encrypt key nonce q)
       /\ decrypt key (encrypt key nonce q) = Ok q)
    (Hch : Forall (fun x => 0 <= x < 256) ch) (H3 : lenZ ch mod 4 <> 3)
    (Hcap : calcCapacity (lenZ ch) b = Ok cap)
    (Hdata : Forall (fun x => 0 <= x < 256) data) (Hdlen : lenZ data < 2 ^ 32)
    (Hname : Forall (fun c => is_scalar c = true) name) (Hbom : hd_error name <> Some 0xFEFF)
    (Hpack : pack (newRawFile data name) = Ok p)
    (Hfit : lenZ p <= cap_bytes cap - ENCRYPTED_METADATA_SIZE) :
  let o := hide encrypt m rng nonce (newRawFile data name) key b ch in
  ho_result o = Ok tt /\ reveal decrypt key (ho_channels o) = Ok (newRawFile data name).
Proof.
  cbv zeta.
  destruct (packWithPadding_spec _ (cap_bytes cap - ENCRYPTED_METADATA_SIZE) p Hpack)
    as [_ Hpad].
  destruct (Hpad Hfit) as [Hpw Hplen]. clear Hpad.
  set (packed := p ++ repeat 0 _) in Hpw, Hplen.
  assert (Hpb : Forall (fun x => 0 <= x < 256) packed).
  { apply Forall_app. split; [exact (pack_bytes data name p Hdlen Hname Hdata Hpack)|].
    apply Forall_forall. intros x Hx. apply repeat_spec in Hx. lia. }
  destruct (Henc packed Hpb) as (Hclen & Hcb & Hdec).
  set (ct := encrypt key nonce packed) in *.
  assert (Hct : lenZ ct = cap_bytes cap) by (rewrite Hclen, Hplen; lia).
  assert (Hhb := hideBlob_fits_ok m rng b ct ch cap H3 Hcap ltac:(lia)).
  set (ch' := hs_ch (snd (hide_writes m rng b ct ch))) in Hhb.
  unfold hide. rewrite Hcap, Hpw. fold ct.
  replace (negb (lenZ ct =? cap_bytes cap)) with false by (rewrite Hct, Z.eqb_refl; reflexivity).
  rewrite Hhb. cbn [ho_result ho_channels]. split; [reflexivity|].
  destruct (hideBlob_reveal_full m rng ct b ch ch' Hch Hcb Hhb)
    as (cap' & out & Hcap' & Hrev & Hlen & Hfirst).
  rewrite Hcap in Hcap'. injection Hcap' as <-.
  assert (Hout : out = ct).
  { apply firstn_full; [unfold lenZ in Hlen, Hct; lia | exact Hfirst]. }
  unfold reveal. rewrite Hrev. cbn [bind]. rewrite Hout. fold ct. rewrite Hdec. cbn [bind].
  apply (fromPacked_packWithPadding_any data name (cap_bytes cap - ENCRYPTED_METADATA_SIZE));
    assumption.
Qed.

Lemma revealBitsTaken_range (ch : list Z) :
  exists b, revealBitsTaken ch = Ok b /\ 1 <= b <= 8.
Proof.
  unfold revealBitsTaken.
  destruct (readBit_01 (get ch 0) 7) as [E0|E0]; rewrite E0;
  destruct (readBit_01 (get ch 1) 7) as [E1|E1]; rewrite E1;
  destruct (readBit_01 (get ch 2) 7) as [E2|E2]; rewrite E2;
  eexists; (split; [reflexivity | cbv; split; discriminate]).
Qed.

Lemma read_loop_len (fuel : nat) (ch : list Z) (b mask c buf bb : Z) (out : list Z) (op : Z) :
  lenZ (read_loop fuel ch b mask c buf bb out op) = lenZ out.
Proof.
  revert c buf bb out op; induction fuel as [|f IH]; intros c buf bb out op; cbn [read_loop];
    [reflexivity|].
  destruct (_ <? _); [|reflexivity].
  destruct (8 <=? _); rewrite IH; [apply lenZ_set | reflexivity].
Qed.

Lemma validateBits_err (b : Z) : ~ (1 <= b <= 8) -> validateBits b = Err BitsOutOfRange.
Proof. intros Hb. unfold validateBits. replace ((1 <=? b) && (b <=? 8)) with false by bool_lia. reflexivity. Qed.


(** X5. With [bitsTaken] outside [1,8], [calcCapacity], [hide] and [hideBlob]
    fail with [BitsOutOfRange]; [hide] encrypts nothing and neither touches
    the buffer. *)
Theorem bitsTaken_out_of_range (encrypt : Encrypt) (m : store_mode) (rng : nat -> Z)
    (nonce : list Z) (f : RawFile) (key hData : list Z) (b : Z) (ch : list Z)
    (Hb : ~ (1 <= b <= 8)) :
  calcCapacity (lenZ ch) b = Err BitsOutOfRange
  /\ hide encrypt m rng nonce f key b ch = MkHideOut (Err BitsOutOfRange) ch []
  /\ hideBlob m rng hData b ch = (Err BitsOutOfRange, ch).
Proof.
  assert (Hc : calcCapacity (lenZ ch) b = Err BitsOutOfRange)
    by (unfold calcCapacity; rewrite validateBits_err by exact Hb; reflexivity).
  split; [exact Hc|]. split.
  - unfold hide. rewrite Hc. reflexivity.
  - unfold hideBlob. rewrite validateBits_err by exact Hb. reflexivity.
Qed.

(** X6. [revealBlob] fails with a [RangeError] on a buffer of fewer than 4
    channels; otherwise it succeeds with the [bitsTaken] of the header (always
    in [1,8]) and returns [floor(3*bitsTaken*(L-4)/32)] bytes. *)
Theorem revealBlob_shape (ch : list Z) :
  (lenZ ch < 4 -> revealBlob ch = Err RangeError)
  /\ (4 <= lenZ ch -> exists b out, revealBitsTaken ch = Ok b /\ 1 <= b <= 8
        /\ revealBlob ch = Ok out /\ lenZ out = 3 * b * (lenZ ch - 4) / 32).
Proof.
  destruct (revealBitsTaken_range ch) as (b & Hr & Hb).
  destruct (calcCapacity_ok (lenZ ch) b Hb) as (cap & Hc & _).
  destruct (calcCapacity_bytes _ _ _ Hc) as [_ Hbytes].
  unfold revealBlob. rewrite Hr. cbn [bind]. rewrite Hc. cbn [bind].
  split.
  - intros HL.
    assert (3 * b * (lenZ ch - 4) / 32 < 0) by (apply Z.div_lt_upper_bound; nia).
    replace (cap_bytes cap <? 0) with true by bool_lia. reflexivity.
  - intros HL.
    assert (0 <= 3 * b * (lenZ ch - 4) / 32) by (apply Z.div_pos; nia).
    replace (cap_bytes cap <? 0) with false by bool_lia.
    exists b. eexists. split; [reflexivity|]. split; [exact Hb|]. split; [reflexivity|].
    rewrite read_loop_len. unfold lenZ at 1. rewrite repeat_length. lia.
Qed.

Lemma utf8ToBytes_length_le (s : list Z) : (length (utf8ToBytes s) <= 4 * length s)%nat.
Proof.
  induction s as [|c s IH]; cbn [utf8ToBytes flat_map length]; [lia|].
  rewrite length_app. pose proof (utf8_encode_cp_length c). fold (utf8ToBytes s). lia.
Qed.

(** X7. [pack] succeeds for every nonempty name of at most 63 code points
    (at most 252 UTF-8 bytes) and fails with [InvalidName] for every name of
    more than 255 code points. *)
Theorem pack_name_length (data name : list Z) :
  (name <> [] -> (length name <= 63)%nat ->
     exists p, pack (newRawFile data name) = Ok p)
  /\ ((255 < length name)%nat -> pack (newRawFile data name) = Err InvalidName).
Proof.
  split.
  - intros Hne Hl. destruct name as [|c0 name']; [contradiction|].
    unfold pack, createHeader. cbn [rf_name newRawFile].
    pose proof (utf8ToBytes_length_ge (c0 :: name')).
    pose proof (utf8ToBytes_length_le (c0 :: name')).
    cbn [length] in *.
    replace ((lenZ (utf8ToBytes (c0 :: name')) <? 1) || (255 <? lenZ (utf8ToBytes (c0 :: name'))))
      with false by (unfold lenZ; bool_lia).
    eexists; reflexivity.
  - intros Hl. destruct name as [|c0 name']; [cbn in Hl; lia|].
    unfold pack, createHeader. cbn [rf_name newRawFile].
    pose proof (utf8ToBytes_length_ge (c0 :: name')).
    replace ((lenZ (utf8ToBytes (c0 :: name')) <? 1) || (255 <? lenZ (utf8ToBytes (c0 :: name'))))
      with true by (unfold lenZ; bool_lia).
    reflexivity.
Qed.

(** X8. For content below [2^32] bytes and a name of Unicode scalars not
    starting with U+FEFF (the empty name included, replaced by the default
    name), [fromPacked] inverts [pack] and [packWithPadding] for every
    required length. *)
Theorem unpack_pack_roundtrip (data name : list Z)
    (Hd : lenZ data < 2 ^ 32)
    (Hs : Forall (fun c => is_scalar c = true) name) (Hbom : hd_error name <> Some 0xFEFF) :
  (forall p, pack (newRawFile data name) = Ok p -> fromPacked p = Ok (newRawFile data name))
  /\ (forall req p, packWithPadding (newRawFile data name) req = Ok p ->
        fromPacked p = Ok (newRawFile data name)).
Proof.
  split.
  - intros p Hp. apply (fromPacked_packWithPadding_any data name (lenZ p)); try assumption.
    destruct (packWithPadding_spec _ (lenZ p) p Hp) as [_ H].
    destruct (H ltac:(lia)) as [E _]. rewrite E, Z.sub_diag. cbn. rewrite app_nil_r. reflexivity.
  - intros req p. apply fromPacked_packWithPadding_any; assumption.
Qed.

(** X9. For a string of Unicode scalars not starting with U+FEFF,
    [utf8ToBytes] produces bytes and [bytesToUtf8] decodes them back to the
    string. *)
Theorem utf8_roundtrip (s : list Z)
    (Hs : Forall (fun c => is_scalar c = true) s) (Hbom : hd_error s <> Some 0xFEFF) :
  bytesToUtf8 (utf8ToBytes s) = s /\ Forall (fun x => 0 <= x < 256) (utf8ToBytes s).
Proof.
  split; [apply bytesToUtf8_utf8ToBytes; assumption | apply utf8ToBytes_bytes, Hs].
Qed.

Lemma write_shiftr (m : store_mode) (curr bits b data : Z) :
  0 <= curr < 256 -> 1 <= bits <= b -> b <= 8 -> 0 <= data < 2 ^ bits ->
  Z.shiftr (to_elem m (Z.lor (clearBits curr bits) data)) b = Z.shiftr curr b.
Proof.
  intros Hc Hbits Hb8 Hd.
  rewrite clearBits_lor by lia.
  assert (Hq : 0 <= curr / 2 ^ bits * 2 ^ bits + data < 256).
  { assert (Hm : curr / 2 ^ bits * 2 ^ bits <= curr)
      by (rewrite Z.mul_comm; apply Z.mul_div_le; lia).
    assert (Hpos : 0 <= curr / 2 ^ bits) by (apply Z.div_pos; lia).
    assert (Hr : curr - curr / 2 ^ bits * 2 ^ bits = curr mod 2 ^ bits)
      by (rewrite Z.mod_eq by lia; lia).
    pose proof (Z.mod_pos_bound curr (2 ^ bits) ltac:(lia)).
    split; [nia|].
    (* the high part of [curr] plus an element below [2^bits] stays below 256 *)
    assert (H256 : 256 = 256 / 2 ^ bits * 2 ^ bits).
    { assert (Hp8 : 2 ^ 8 = 2 ^ (8 - bits) * 2 ^ bits)
        by (rewrite <- Z.pow_add_r by lia; f_equal; lia).
      change 256 with (2 ^ 8). rewrite Hp8, Z.div_mul by lia. reflexivity. }
    assert (curr / 2 ^ bits < 256 / 2 ^ bits) by (apply Z.div_lt_upper_bound; [lia|]; lia).
    nia. }
  rewrite to_elem_byte by exact Hq.
  rewrite !Z.shiftr_div_pow2 by lia.
  assert (Hp : 2 ^ b = 2 ^ bits * 2 ^ (b - bits))
    by (rewrite <- Z.pow_add_r by lia; f_equal; lia).
  rewrite Hp, <- !Z.div_div by lia.
  rewrite Z.div_add_l by lia. rewrite (Z.div_small data) by lia. rewrite Z.add_0_r.
  reflexivity.
Qed.

Section HighBits.

Variable m : store_mode.
Variable rng : nat -> Z.
Variable b : Z.
Hypothesis Hb : 1 <= b <= 8.
Variable ch0 : list Z.

Lemma hi_write (bits data : Z) (s : HState) :
  1 <= bits <= b -> 0 <= data < 2 ^ bits ->
  hi_same b ch0 (hs_ch s) -> hi_same b ch0 (hs_ch (writeChannel m bits data s)).
Proof.
  intros Hbits Hd (Hl & Hby & Hhi).
  split; [rewrite writeChannel_len; exact Hl|].
  split; [apply writeChannel_bytes, Hby|].
  intros i Hi. rewrite <- (Hhi i Hi).
  set (id := hs_id s).
  set (V := Z.lor (clearBits (get (hs_ch s) id) bits) data).
  assert (Hfirst : Z.shiftr (get (set m (hs_ch s) id V) i) b = Z.shiftr (get (hs_ch s) i) b).
  { destruct (Z.eq_dec i id) as [-> | Hne].
    - destruct (Z.le_gt_cases 0 id); [destruct (Z.lt_ge_cases id (lenZ (hs_ch s)))|].
      + rewrite get_set_eq by lia. unfold V. apply write_shiftr; [apply Hby | lia | lia | lia].
      + rewrite set_out by lia. reflexivity.
      + rewrite set_out by lia. reflexivity.
    - rewrite get_set_ne by exact Hne. reflexivity. }
  unfold writeChannel. fold id. fold V.
  destruct (isAlpha (id + 1)) eqn:Ea; cbn [hs_ch].
  - rewrite get_set_ne by (intros ->; congruence). exact Hfirst.
  - exact Hfirst.
Qed.

Lemma hi_push_bit (x : Z) (s : HState) :
  0 <= x <= 1 -> hi_same b ch0 (hs_ch s) -> acc_ok b s ->
  hi_same b ch0 (hs_ch (push_bit m b s x)) /\ acc_ok b (push_bit m b s x).
Proof.
  intros Hx Hs (Hbb & Hbuf). unfold push_bit.
  set (buf' := Z.lor (Z.shiftl (hs_buf s) 1) x).
  assert (Hv : buf' = hs_buf s * 2 ^ 1 + x)
    by (unfold buf'; rewrite lor_low by (change (2 ^ 1) with 2; lia); reflexivity).
  assert (Hr : 0 <= buf' < 2 ^ (hs_bufBits s + 1))
    by (rewrite Hv, Z.pow_add_r by lia; change (2 ^ 1) with 2; lia).
  destruct (Z.eqb_spec (hs_bufBits s + 1) b) as [E | E].
  - split.
    + cbn [set_acc hs_ch]. apply hi_write; [lia | rewrite <- E; exact Hr | exact Hs].
    + unfold acc_ok. cbn [set_acc hs_bufBits hs_buf]. cbn. lia.
  - split; [exact Hs|]. unfold acc_ok. cbn [set_acc hs_bufBits hs_buf]. lia.
Qed.

Lemma hi_hide_byte (x : Z) (s : HState) :
  hi_same b ch0 (hs_ch s) -> acc_ok b s ->
  hi_same b ch0 (hs_ch (hide_byte m b s x)) /\ acc_ok b (hide_byte m b s x).
Proof.
  unfold hide_byte. generalize bit_positions as l.
  intros l; revert s; induction l as [|p l IH]; intros s Hs Ha; cbn [fold_left].
  - split; assumption.
  - destruct (hi_push_bit (readBit x p) s ltac:(destruct (readBit_01 x p); lia) Hs Ha) as [H1 H2].
    apply IH; assumption.
Qed.

Lemma hi_payload (hData : list Z) (s : HState) :
  hi_same b ch0 (hs_ch s) -> acc_ok b s ->
  hi_same b ch0 (hs_ch (payload m b hData s)) /\ acc_ok b (payload m b hData s).
Proof.
  unfold payload. revert s; induction hData as [|x t IH]; intros s Hs Ha; [|rewrite fold_left_step].
  - split; assumption.
  - destruct (hi_hide_byte x s Hs Ha) as [H1 H2]. apply IH; assumption.
Qed.

Lemma hi_header (fuel : nat) (s : HState) :
  hi_same b ch0 (hs_ch s) -> hi_same b ch0 (hs_ch (header_loop m fuel b s)).
Proof.
  revert s; induction fuel as [|f IH]; intros s Hs; cbn [header_loop]; [exact Hs|].
  destruct (_ <? 3); [|exact Hs].
  apply IH, hi_write; [lia | | exact Hs].
  destruct (readBit_01 (b - 1) (8 - 3 + hs_id s)) as [E|E]; rewrite E; cbn; lia.
Qed.

Lemma hi_leftover (s : HState) :
  hi_same b ch0 (hs_ch s) -> acc_ok b s -> hi_same b ch0 (hs_ch (snd (leftover m rng b s))).
Proof.
  intros Hs (Hbb & Hbuf). unfold leftover.
  destruct (Z.eqb_spec (hs_bufBits s) 0) as [E | E]; [exact Hs|].
  cbn [getRandomByte hs_bufBits].
  set (s1 := MkHState (hs_ch s) (hs_id s) (hs_buf s) (hs_bufBits s) (S (hs_rnd s))).
  destruct (fill_random_bits (Z.to_nat (b - hs_bufBits s)) 0 (rng (hs_rnd s)) s1
              ltac:(lia) ltac:(lia)) as (s2 & R & Hf & Hc2 & Hid2 & Hbb2 & Hbuf2 & HR).
  rewrite Hf. cbn [hs_ch hs_id hs_bufBits hs_buf s1] in Hc2, Hid2, Hbb2, Hbuf2.
  rewrite Z2Nat.id in Hbb2, Hbuf2, HR by lia.
  replace (negb (hs_bufBits s2 =? b)) with false by (rewrite Hbb2; bool_lia).
  cbn [snd]. apply hi_write; [lia | | rewrite Hc2; exact Hs].
  assert (Hp : 2 ^ b = 2 ^ hs_bufBits s * 2 ^ (b - hs_bufBits s))
    by (rewrite <- Z.pow_add_r by lia; f_equal; lia).
  rewrite Hbuf2, Hp. nia.
Qed.

Lemma hi_trail (fuel : nat) (L : Z) (s : HState) :
  hi_same b ch0 (hs_ch s) -> hi_same b ch0 (hs_ch (trail m rng fuel L b s)).
Proof.
  revert s; induction fuel as [|f IH]; intros s Hs; cbn [trail]; [exact Hs|].
  destruct (_ <? L); [|exact Hs].
  cbn [getRandomByte]. apply IH, hi_write; [lia | | exact Hs].
  rewrite land_low by lia. apply Z.mod_pos_bound. lia.
Qed.

Lemma hi_hide_writes (hData : list Z) :
  all_bytes ch0 -> hi_same b ch0 (hs_ch (snd (hide_writes m rng b hData ch0))).
Proof.
  intros Hby. unfold hide_writes.
  assert (H0 : hi_same b ch0 ch0) by (split; [reflexivity | split; [exact Hby | reflexivity]]).
  pose proof (hi_header 3 (MkHState ch0 0 0 0 O) H0) as H1.
  destruct (header_loop_start m b ch0) as [_ Hbb1].
  assert (Hbuf1 : hs_buf (header_loop m 3 b (MkHState ch0 0 0 0 O)) = 0) by reflexivity.
  destruct (hi_payload hData _ H1 ltac:(unfold acc_ok; rewrite Hbb1, Hbuf1; cbn; lia)) as [H2 A2].
  pose proof (hi_leftover _ H2 A2) as H3.
  destruct (leftover m rng b _) as [[u|e] s3]; cbn [snd] in *; [apply hi_trail|]; exact H3.
Qed.

End HighBits.

Lemma all_bytes_len_Forall (l : list Z) : all_bytes l -> Forall (fun x => 0 <= x < 256) l.
Proof.
  intros H. apply Forall_forall. intros x Hx.
  apply In_nth with (d := 0) in Hx. destruct Hx as (n & Hn & <-).
  specialize (H (Z.of_nat n)). unfold get, lenZ in H. rewrite Nat2Z.id in H.
  replace ((0 <=? Z.of_nat n) && (Z.of_nat n <? Z.of_nat (length l))) with true in H by bool_lia.
  exact H.
Qed.

(** X10. On a buffer of bytes, whatever its outcome, [hideBlob] leaves a
    buffer of the same length holding bytes, and changes no non-alpha channel
    above its [bitsTaken] low bits. *)
Theorem hideBlob_low_bits_only (m : store_mode) (rng : nat -> Z) (hData : list Z) (b : Z)
    (ch : list Z) (Hch : Forall (fun x => 0 <= x < 256) ch) :
  let ch' := snd (hideBlob m rng hData b ch) in
  length ch' = length ch /\ Forall (fun x => 0 <= x < 256) ch'
  /\ forall i, isAlpha i = false -> Z.shiftr (get ch' i) b = Z.shiftr (get ch i) b.
Proof.
  cbv zeta.
  assert (Hsame : hi_same b ch (snd (hideBlob m rng hData b ch))).
  { unfold hideBlob.
    destruct (validateBits b) eqn:Ev;
      [|split; [reflexivity | split; [apply all_bytes_Forall, Hch | reflexivity]]].
    assert (Hb : 1 <= b <= 8).
    { unfold validateBits in Ev. destruct (_ && _) eqn:E; [|discriminate].
      rewrite andb_true_iff, !Z.leb_le in E. exact E. }
    assert (H0 : hi_same b ch ch)
      by (split; [reflexivity | split; [apply all_bytes_Forall, Hch | reflexivity]]).
    destruct (calcCapacity _ _); [|exact H0].
    destruct (_ >? _); [exact H0|].
    pose proof (hi_hide_writes m rng b Hb ch hData (all_bytes_Forall _ Hch)) as Hw.
    destruct (hide_writes m rng b hData ch) as [[u|e] s]; cbn [snd] in *; [|exact Hw].
    destruct (negb _); exact Hw. }
  destruct Hsame as (Hl & Hby & Hhi).
  split; [unfold lenZ in Hl; lia|]. split; [apply all_bytes_len_Forall, Hby | exact Hhi].
Qed.

Lemma hideBlob_revealBlob_witness :
  Forall (fun x => 0 <= x < 256) (repeat 0 16) /\ Forall (fun x => 0 <= x < 256) [65]
  /\ hideBlob Wrapping (fun _ => 0) [65] 8 (repeat 0 16)
     = (Ok tt, snd (hideBlob Wrapping (fun _ => 0) [65] 8 (repeat 0 16)))
  /\ exists out, revealBlob (snd (hideBlob Wrapping (fun _ => 0) [65] 8 (repeat 0 16))) = Ok out
       /\ firstn (length [65]) out = [65].
Proof.
  assert (H1 : Forall (fun x => 0 <= x < 256) (repeat 0 16)) by (repeat constructor; lia).
  assert (H2 : Forall (fun x => 0 <= x < 256) [65]) by (repeat constructor; lia).
  assert (H3 : hideBlob Wrapping (fun _ => 0) [65] 8 (repeat 0 16)
               = (Ok tt, snd (hideBlob Wrapping (fun _ => 0) [65] 8 (repeat 0 16))))
    by (vm_compute; reflexivity).
  split; [exact H1|]. split; [exact H2|]. split; [exact H3|].
  exact (hideBlob_revealBlob Wrapping (fun _ => 0) [65] 8 (repeat 0 16) _ H1 H2 H3).
Defined.

Lemma toy_contract_bytes (q : list Z) :
  Forall (fun x => 0 <= x < 256) q ->
  lenZ (toy_encrypt (repeat 1 32) (repeat 5 12) q) = lenZ q + ENCRYPTED_METADATA_SIZE
  /\ Forall (fun x => 0 <= x < 256) (toy_encrypt (repeat 1 32) (repeat 5 12) q)
  /\ toy_decrypt (repeat 1 32) (toy_encrypt (repeat 1 32) (repeat 5 12) q) = Ok q.
Proof.
  intros Hq. destruct (toy_aead_contract (repeat 1 32) (repeat 5 12) q) as [Hl Hd].
  split; [unfold lenZ; rewrite Hl; unfold ENCRYPTED_METADATA_SIZE; lia|].
  split; [|exact Hd].
  unfold toy_encrypt. apply Forall_app. split; [cbn; repeat constructor; lia|].
  apply Forall_app. split; [exact Hq|]. cbn. repeat constructor; lia.
Qed.

Lemma hide_reveal_roundtrip_witness :
  lenZ (repeat 0 56) mod 4 <> 3
  /\ calcCapacity (lenZ (repeat 0 56)) 8 = Ok (ex_cap 56 8)
  /\ pack (newRawFile [7] [97]) = Ok [1; 97; 0; 0; 0; 1; 7]
  /\ lenZ [1; 97; 0; 0; 0; 1; 7] <= cap_bytes (ex_cap 56 8) - ENCRYPTED_METADATA_SIZE
  /\ (let o := hide toy_encrypt Wrapping (fun n => Z.of_nat n) (repeat 5 12)
                  (newRawFile [7] [97]) (repeat 1 32) 8 (repeat 0 56) in
      ho_result o = Ok tt
      /\ reveal toy_decrypt (repeat 1 32) (ho_channels o) = Ok (newRawFile [7] [97])).
Proof.
  assert (H3 : lenZ (repeat 0 56) mod 4 <> 3) by (vm_compute; discriminate).
  assert (Hc : calcCapacity (lenZ (repeat 0 56)) 8 = Ok (ex_cap 56 8)) by (vm_compute; reflexivity).
  assert (Hp : pack (newRawFile [7] [97]) = Ok [1; 97; 0; 0; 0; 1; 7]) by reflexivity.
  assert (Hf : lenZ [1; 97; 0; 0; 0; 1; 7] <= cap_bytes (ex_cap 56 8) - ENCRYPTED_METADATA_SIZE)
    by (vm_compute; discriminate).
  split; [exact H3|]. split; [exact Hc|]. split; [exact Hp|]. split; [exact Hf|].
  exact (hide_reveal_roundtrip toy_encrypt toy_decrypt Wrapping (fun n => Z.of_nat n)
           (repeat 5 12) (repeat 1 32) [7] [97] 8 (repeat 0 56) (ex_cap 56 8)
           [1; 97; 0; 0; 0; 1; 7] toy_contract_bytes
           ltac:(repeat constructor; lia) H3 Hc ltac:(repeat constructor; lia)
           ltac:(vm_compute; reflexivity) ltac:(repeat constructor) ltac:(discriminate)
           Hp Hf).
Defined.



Lemma bitsTaken_out_of_range_witness :
  ~ (1 <= 9 <= 8)
  /\ calcCapacity (lenZ (repeat 0 16)) 9 = Err BitsOutOfRange
  /\ hide toy_encrypt Wrapping (fun _ => 0) [] (newRawFile [7] [97]) (repeat 1 32) 9 (repeat 0 16)
     = MkHideOut (Err BitsOutOfRange) (repeat 0 16) []
  /\ hideBlob Wrapping (fun _ => 0) [7] 9 (repeat 0 16) = (Err BitsOutOfRange, repeat 0 16).
Proof.
  split; [lia|].
  exact (bitsTaken_out_of_range toy_encrypt Wrapping (fun _ => 0) [] (newRawFile [7] [97])
           (repeat 1 32) [7] 9 (repeat 0 16) ltac:(lia)).
Defined.

Lemma revealBlob_shape_witness :
  revealBlob [1; 2] = Err RangeError
  /\ exists b out, revealBitsTaken (repeat 0 16) = Ok b /\ 1 <= b <= 8
       /\ revealBlob (repeat 0 16) = Ok out /\ lenZ out = 3 * b * (lenZ (repeat 0 16) - 4) / 32.
Proof.
  split.
  - exact (proj1 (revealBlob_shape [1; 2]) ltac:(vm_compute; reflexivity)).
  - exact (proj2 (revealBlob_shape (repeat 0 16)) ltac:(vm_compute; discriminate)).
Defined.

Lemma pack_name_length_witness :
  (exists p, pack (newRawFile [7] [97]) = Ok p)
  /\ pack (newRawFile [7] (repeat 97 256)) = Err InvalidName.
Proof.
  split.
  - exact (proj1 (pack_name_length [7] [97]) ltac:(discriminate) ltac:(cbn; lia)).
  - exact (proj2 (pack_name_length [7] (repeat 97 256)) ltac:(rewrite repeat_length; lia)).
Defined.

Lemma unpack_pack_roundtrip_witness :
  lenZ [7] < 2 ^ 32 /\ Forall (fun c => is_scalar c = true) [] /\ hd_error (@nil Z) <> Some 0xFEFF
  /\ fromPacked (match packWithPadding (newRawFile [7] []) 40 with Ok p => p | Err _ => [] end)
     = Ok (newRawFile [7] []).
Proof.
  assert (H1 : lenZ [7] < 2 ^ 32) by (vm_compute; reflexivity).
  assert (H2 : Forall (fun c => is_scalar c = true) (@nil Z)) by constructor.
  assert (H3 : hd_error (@nil Z) <> Some 0xFEFF) by discriminate.
  split; [exact H1|]. split; [exact H2|]. split; [exact H3|].
  exact (proj2 (unpack_pack_roundtrip [7] [] H1 H2 H3) 40 _ ltac:(vm_compute; reflexivity)).
Defined.

Lemma utf8_roundtrip_witness :
  Forall (fun c => is_scalar c = true) [0x20AC; 0x1F600] /\ hd_error [0x20AC; 0x1F600] <> Some 0xFEFF
  /\ bytesToUtf8 (utf8ToBytes [0x20AC; 0x1F600]) = [0x20AC; 0x1F600]
  /\ Forall (fun x => 0 <= x < 256) (utf8ToBytes [0x20AC; 0x1F600]).
Proof.
  assert (H1 : Forall (fun c => is_scalar c = true) [0x20AC; 0x1F600])
    by (repeat constructor).
  assert (H2 : hd_error [0x20AC; 0x1F600] <> Some 0xFEFF) by discriminate.
  split; [exact H1|]. split; [exact H2|].
  exact (utf8_roundtrip [0x20AC; 0x1F600] H1 H2).
Defined.

Lemma hideBlob_low_bits_only_witness :
  Forall (fun x => 0 <= x < 256) (repeat 170 16)
  /\ (let ch' := snd (hideBlob Clamping (fun _ => 0) [255] 2 (repeat 170 16)) in
      length ch' = length (repeat 170 16) /\ Forall (fun x => 0 <= x < 256) ch'
      /\ forall i, isAlpha i = false ->
           Z.shiftr (get ch' i) 2 = Z.shiftr (get (repeat 170 16) i) 2).
Proof.
  assert (H : Forall (fun x => 0 <= x < 256) (repeat 170 16)) by (repeat constructor; lia).
  split; [exact H|].
  exact (hideBlob_low_bits_only Clamping (fun _ => 0) [255] 2 (repeat 170 16) H).
Defined.
